(** * aicsimageio.readers.tiff_reader: a shallow embedding of [TiffReader]

    The development follows [src/aicsimageio/readers/tiff_reader.py]:
    the header sniffer [_is_this_type], the description extractor
    [get_image_description], the dimension resolver
    [_guess_tiff_dims] / [_get_tiff_properties], the cached accessors
    [dims] / [shape] / [dtype], and the two readers [_read_delayed] and
    [_read_immediate].

    Python integers are unbounded, so header fields are [Z]; sizes, shapes
    and grid coordinates, which are never negative, are [nat]. *)

From Stdlib Require Import Ascii String.
From Stdlib Require Import List ZArith Lia Bool Arith.
From Stdlib.Strings Require Import Byte.
Import ListNotations.

Set Implicit Arguments.

(** ** Outcomes of a Python call *)

(** The exceptions that occur in the module, and the two failure names of the
    specification's taxonomy that the cursor and the assembler are said to
    use ([TruncatedInputError], [EmptyContainerError]). *)
Inductive exn : Set :=
| IndexError
| NameError
| TypeError
| ValueError
| OverflowError
| TruncatedInputError
| EmptyContainerError.

(** A call returns, raises, or (for the [while] loops, which are run with a
    bound on their iterations) has not finished within the bound. *)
Inductive outcome (A : Type) : Type :=
| Returns (a : A)
| Raises (e : exn)
| OutOfFuel.

Arguments Raises {A} e.
Arguments OutOfFuel {A}.

Definition obind {A B} (m : outcome A) (k : A -> outcome B) : outcome B :=
  match m with
  | Returns a => k a
  | Raises e => Raises e
  | OutOfFuel => OutOfFuel
  end.

Declare Scope py_scope.
Delimit Scope py_scope with py.
Notation "x <- m ;; k" := (obind m (fun x => k))
  (at level 61, m at next level, right associativity) : py_scope.

(** [seq[i]] on a Python list or tuple: a negative index counts from the end,
    anything outside [-len, len) raises [IndexError]. *)
Definition py_index {A} (l : list A) (i : Z) : outcome A :=
  let n := Z.of_nat (length l) in
  let j := if (i <? 0)%Z then (i + n)%Z else i in
  if ((0 <=? j) && (j <? n))%Z%bool then
    match nth_error l (Z.to_nat j) with
    | Some a => Returns a
    | None => Raises IndexError
    end
  else Raises IndexError.

(** ** The byte stream and its cursor *)

Definition byte_val (b : byte) : Z := Z.of_N (Byte.to_N b).

(** Little-endian and big-endian value of a byte string. *)
Fixpoint le_int (bs : list byte) : Z :=
  match bs with
  | [] => 0
  | b :: bs' => byte_val b + 256 * le_int bs'
  end.

Definition be_int (bs : list byte) : Z :=
  fold_left (fun acc b => 256 * acc + byte_val b)%Z bs 0%Z.

(** The two markers, [b"II"] and [b"MM"]. *)
Definition INTEL_ENDIAN : list byte := [x49; x49].
Definition MOTOROLA_ENDIAN : list byte := [x4d; x4d].

Definition bytes_eqb (a b : list byte) : bool :=
  if list_eq_dec Byte.byte_eq_dec a b then true else false.

(** Modelled from the spec: [BufferReader] (module [..buffer_reader], the
    spec's ByteStreamCursor) is not among the sources. It wraps the byte
    source, fixes [endianness] at construction from the first two bytes read,
    and keeps the stream position. [content] and [pos] are the wrapped
    [buffer] object, which the reader also seeks and reads directly. *)
Record BufferReader : Set := {
  content : list byte;
  endianness : list byte;
  pos : Z
}.

Definition BufferReader_enter (buffer : list byte) : BufferReader :=
  {| content := buffer; endianness := firstn 2 buffer; pos := 2 |}.

(** Computations over the cursor: the position is threaded, failures stop. *)
Definition Cursor (A : Type) : Type := BufferReader -> outcome (A * BufferReader).

Definition ret {A} (a : A) : Cursor A := fun br => Returns (a, br).

Definition bind {A B} (m : Cursor A) (k : A -> Cursor B) : Cursor B :=
  fun br =>
    match m br with
    | Returns (a, br') => k a br'
    | Raises e => Raises e
    | OutOfFuel => OutOfFuel
    end.

Declare Scope cursor_scope.
Delimit Scope cursor_scope with cursor.
Notation "x <- m ;; k" := (bind m (fun x => k))
  (at level 61, m at next level, right associativity) : cursor_scope.
Notation "m ;;; k" := (bind m (fun _ => k))
  (at level 61, right associativity) : cursor_scope.

(** The [w] bytes at absolute offset [p], when the stream has them. *)
Definition bytes_at (buffer : list byte) (p : Z) (w : nat) : option (list byte) :=
  if ((0 <=? p) && (p + Z.of_nat w <=? Z.of_nat (length buffer)))%Z%bool
  then Some (firstn w (skipn (Z.to_nat p) buffer))
  else None.

Definition decode (e : list byte) (bs : list byte) : Z :=
  if bytes_eqb e INTEL_ENDIAN then le_int bs else be_int bs.

(** Modelled from the spec: [read_uint16], [read_uint32], [read_uint64] read a
    fixed-width unsigned integer in the detected byte order and fail with
    [TruncatedInputError] if fewer bytes remain than requested. *)
Definition read_uint (w : nat) : Cursor Z := fun br =>
  match bytes_at (content br) (pos br) w with
  | Some bs =>
      Returns (decode (endianness br) bs,
               {| content := content br; endianness := endianness br;
                  pos := pos br + Z.of_nat w |})
  | None => Raises TruncatedInputError
  end.

Definition read_uint16 : Cursor Z := read_uint 2.
Definition read_uint32 : Cursor Z := read_uint 4.
Definition read_uint64 : Cursor Z := read_uint 8.

(** [sys.maxsize]: the largest position or size that fits a [Py_ssize_t]. *)
Definition py_ssize_t_max : Z := 2 ^ 63 - 1.

(** A position or size that the stream over [buffer] refuses: one beyond
    [sys.maxsize]. A stream is itself never longer than [sys.maxsize], so a
    position or size within it is always accepted. *)
Definition too_large (buffer : list byte) (n : Z) : bool :=
  (Z.max py_ssize_t_max (Z.of_nat (length buffer)) <? n)%Z.

(** [buffer_reader.buffer.seek(offset, 0)], the stream being held in memory
    ([io.BytesIO]): any position up to [sys.maxsize] is accepted, also one
    past the end; beyond it the call raises [OverflowError]. (A file object
    refuses earlier, at the largest offset of its file system.) *)
Definition seek (offset : Z) : Cursor unit := fun br =>
  if too_large (content br) offset then Raises OverflowError
  else
    Returns (tt, {| content := content br; endianness := endianness br; pos := offset |}).

(** What [buffer.read(n)] of the wrapped stream gives for a size [n] that it
    accepts: up to [n] bytes from the current position, and everything up to
    the end of the stream when [n] is negative (the code only ever passes
    -1 then); reading at or past the end gives the empty string. *)
Definition stream_read (buffer : list byte) (p n : Z) : list byte :=
  if (Z.of_nat (length buffer) <=? p)%Z then []
  else
    let rest := skipn (Z.to_nat p) buffer in
    if (n <? 0)%Z then rest
    else if (Z.of_nat (length rest) <=? n)%Z then rest
    else firstn (Z.to_nat n) rest.

(** [buffer_reader.buffer.read(n)]: a size beyond [sys.maxsize] raises
    [OverflowError]. *)
Definition buffer_read (n : Z) : Cursor (list byte) := fun br =>
  if too_large (content br) n then Raises OverflowError
  else
    let bs := stream_read (content br) (pos br) n in
    Returns (bs, {| content := content br; endianness := endianness br;
                    pos := pos br + Z.of_nat (length bs) |}).

(** [buffer_reader.endianness not in [INTEL_ENDIAN, MOTOROLA_ENDIAN]]. *)
Definition endianness_known (br : BufferReader) : bool :=
  bytes_eqb (endianness br) INTEL_ENDIAN || bytes_eqb (endianness br) MOTOROLA_ENDIAN.

(** ** [TiffReader._is_this_type] *)

(** The two [if magic == ...] blocks are written one after the other; each
    either leaves the function with [False] or falls through to the next
    statement. [Leave v] is a [return v] inside a block. *)
Inductive flow (R A : Type) : Type :=
| Leave (r : R)
| Fall (a : A).

Arguments Leave {R A} r.
Arguments Fall {R A} a.

Definition _is_this_type (buffer : list byte) : outcome bool :=
  let br := BufferReader_enter buffer in
  if negb (endianness_known br) then Returns false
  else
    obind
      ((magic <- read_uint16 ;;
        f42 <- (if (magic =? 42)%Z then
                  ifd_offset <- read_uint32 ;;
                  if (ifd_offset =? 0)%Z then ret (Leave false) else ret (Fall tt)
                else ret (Fall tt)) ;;
        match f42 with
        | Leave r => ret r
        | Fall _ =>
            f43 <- (if (magic =? 43)%Z then
                      a <- read_uint16 ;;
                      if negb (a =? 8)%Z then ret (Leave false)
                      else
                        b <- read_uint16 ;;
                        if negb (b =? 0)%Z then ret (Leave false)
                        else
                          ifd_offset <- read_uint64 ;;
                          if (ifd_offset =? 0)%Z then ret (Leave false)
                          else ret (Fall tt)
                    else ret (Fall tt)) ;;
            match f43 with
            | Leave r => ret r
            | Fall _ => ret true
            end
        end)%cursor br)
      (fun r => Returns (fst r)).

(** ** [TiffReader.get_image_description] *)

(** The two directory loops of the source differ only in the width of the
    fields they read: [read_uint32] offsets and counts with a [read_uint16]
    number of entries for magic 42, [read_uint64] throughout for magic 43. *)
Inductive variant : Set := Classic | Big.

Definition offset_width (v : variant) : nat :=
  match v with Classic => 4 | Big => 8 end.

Definition entries_width (v : variant) : nat :=
  match v with Classic => 2 | Big => 8 end.

Definition raise {A} (e : exn) : Cursor A := fun _ => Raises e.

(** [for n in range(0, entries)]: read one entry per round; on tag 270 keep
    [count - 1] and [offset], set [found] and [break]. The result is the pair
    [(description_length, description_offset)] when the loop was left by
    [break]. *)
Fixpoint scan_entries (v : variant) (entries : nat) : Cursor (option (Z * Z)) :=
  match entries with
  | O => ret None
  | S entries' =>
      (tag <- read_uint16 ;;
       typ <- read_uint16 ;;
       count <- read_uint (offset_width v) ;;
       offset <- read_uint (offset_width v) ;;
       if (tag =? 270)%Z then ret (Some (count - 1, offset)%Z)
       else scan_entries v entries')%cursor
  end.

(** [while not found]: read the next directory offset; [return None] when it
    is 0, otherwise seek there and scan the directory. *)
Fixpoint walk_ifds (v : variant) (fuel : nat)
  : Cursor (flow (option (list byte)) (Z * Z)) :=
  match fuel with
  | O => fun _ => OutOfFuel
  | S fuel' =>
      (ifd_offset <- read_uint (offset_width v) ;;
       if (ifd_offset =? 0)%Z then ret (Leave None)
       else
         seek ifd_offset ;;;
         entries <- read_uint (entries_width v) ;;
         hit <- scan_entries v (Z.to_nat entries) ;;
         match hit with
         | Some d => ret (Fall d)
         | None => walk_ifds v fuel'
         end)%cursor
  end.

(** The result is [None], or the bytes of the description; the final
    [bytearray("")] is a call of [bytearray] on a [str] without an encoding,
    which raises [TypeError]. *)
Definition get_image_description (fuel : nat) (buffer : list byte)
  : outcome (option (list byte)) :=
  let br := BufferReader_enter buffer in
  if negb (endianness_known br) then Returns None
  else
    obind
      ((magic <- read_uint16 ;;
        f42 <- (if (magic =? 42)%Z then walk_ifds Classic fuel
                else ret (Fall (0, 0)%Z)) ;;
        match f42 with
        | Leave r => ret r
        | Fall d =>
            f43 <- (if (magic =? 43)%Z then
                      a <- read_uint16 ;;
                      if negb (a =? 8)%Z then ret (Leave None)
                      else
                        b <- read_uint16 ;;
                        if negb (b =? 0)%Z then ret (Leave None)
                        else walk_ifds Big fuel
                    else ret (Fall d)) ;;
            match f43 with
            | Leave r => ret r
            | Fall (description_length, description_offset) =>
                if (description_offset =? 0)%Z then raise TypeError
                else
                  seek description_offset ;;;
                  bs <- buffer_read description_length ;;
                  ret (Some bs)
            end
        end)%cursor br)
      (fun r => Returns (fst r)).

(** [TiffReader.metadata], up to the decoding of the bytes as text:
    [None] becomes the empty string. *)
Definition metadata_bytes (fuel : nat) (buffer : list byte) : outcome (list byte) :=
  obind (get_image_description fuel buffer)
        (fun description =>
           match description with
           | None => Returns []
           | Some bs => Returns bs
           end).

(** ** The layout of a container in a byte stream *)

(** A directory entry: [{tag, type, count, value_or_offset}]. *)
Record Entry : Set := {
  tag : Z;
  typ : Z;
  count : Z;
  value_offset : Z
}.

Definition is_description (en : Entry) : bool := (tag en =? 270)%Z.

(** The first entry with tag 270, directories taken in chain order. *)
Definition first_description (ifds : list (list Entry)) : option Entry :=
  find is_description (concat ifds).

Section Layout.

Variable buffer : list byte.
Variable v : variant.

(** The unsigned integer of [w] bytes stored at offset [p], in the byte
    order that the first two bytes of the stream announce. *)
Definition uint_at (w : nat) (p : Z) : option Z :=
  option_map (decode (firstn 2 buffer)) (bytes_at buffer p w).

Definition entry_size : Z := 4 + 2 * Z.of_nat (offset_width v).

Definition entry_at (p : Z) : option Entry :=
  match uint_at 2 p, uint_at 2 (p + 2),
        uint_at (offset_width v) (p + 4),
        uint_at (offset_width v) (p + 4 + Z.of_nat (offset_width v)) with
  | Some t, Some ty, Some c, Some o =>
      Some {| tag := t; typ := ty; count := c; value_offset := o |}
  | _, _, _, _ => None
  end.

(** The entries [es] are stored one after the other from offset [p]. *)
Fixpoint entries_at (p : Z) (es : list Entry) : Prop :=
  match es with
  | [] => True
  | en :: es' => entry_at p = Some en /\ entries_at (p + entry_size) es'
  end.

(** [ifd_chain p ifds]: the offset field at [p] starts a chain of linked
    directories whose entries are [ifds], the last one followed by a
    next-directory offset of 0. *)
Inductive ifd_chain : Z -> list (list Entry) -> Prop :=
| chain_end : forall p,
    uint_at (offset_width v) p = Some 0%Z ->
    ifd_chain p []
| chain_next : forall p off es ifds,
    uint_at (offset_width v) p = Some off ->
    off <> 0%Z ->
    uint_at (entries_width v) off = Some (Z.of_nat (length es)) ->
    entries_at (off + Z.of_nat (entries_width v)) es ->
    ifd_chain (off + Z.of_nat (entries_width v)
               + entry_size * Z.of_nat (length es)) ifds ->
    ifd_chain p (es :: ifds).

Definition magic_of : Z := match v with Classic => 42 | Big => 43 end.

(** Where the first directory offset is stored. *)
Definition first_ifd_field : Z := match v with Classic => 4 | Big => 8 end.

(** A well-formed header: a known byte-order marker, the magic of the
    variant, and for the big variant the offset size 8 and the reserved 0. *)
Definition tiff_header : Prop :=
  endianness_known (BufferReader_enter buffer) = true /\
  uint_at 2 2 = Some magic_of /\
  match v with
  | Classic => True
  | Big => uint_at 2 4 = Some 8%Z /\ uint_at 2 6 = Some 0%Z
  end.

(** The stream is a container of variant [v] with directories [ifds]. *)
Definition container (ifds : list (list Entry)) : Prop :=
  tiff_header /\ ifd_chain first_ifd_field ifds.

End Layout.

(** ** What the decoder ([tifffile.TiffFile]) exposes *)

(** [np.dtype], as far as it is handed around. *)
Inductive dtype : Set := uint8 | uint16 | uint32 | float32 | float64.

(** A decoded array: its shape and its elements in row-major order. *)
Record ndarray : Set := {
  nd_shape : list nat;
  nd_dtype : dtype;
  nd_data : list Z
}.

(** A page: [page.asarray()] and [page.dtype]. *)
Record TiffPage : Set := {
  page_array : ndarray;
  page_dtype : dtype
}.

(** [series.pages]: the pages with their [axes] and [shape] attributes. *)
Record TiffPages : Set := {
  axes : list ascii;
  pages_shape : list nat;
  items : list TiffPage
}.

(** A scene ([tiff.series[i]]): [scene.shape], [scene.pages] and
    [scene.asarray()]. *)
Record TiffPageSeries : Set := {
  scene_shape : list nat;
  scene_pages : TiffPages;
  scene_array : ndarray
}.

(** The opened file: [tiff.series], [tiff.pages] and [tiff.asarray()]. *)
Record TiffFile : Set := {
  series : list TiffPageSeries;
  pages : list TiffPage;
  file_array : ndarray
}.

Definition shape_eqb (a b : list nat) : bool :=
  if list_eq_dec Nat.eq_dec a b then true else false.

(** ** [TiffReader._scene_shape_is_consistent] *)

(** The [for scene in scenes] loop: [return False] at the first scene whose
    shape differs from [operating_shape], [return True] after the loop. *)
Fixpoint shapes_all_equal (operating_shape : list nat) (scenes : list TiffPageSeries) : bool :=
  match scenes with
  | [] => true
  | scene :: rest =>
      if negb (shape_eqb (scene_shape scene) operating_shape) then false
      else shapes_all_equal operating_shape rest
  end.

Definition _scene_shape_is_consistent (tiff : TiffFile) (S : Z) : outcome bool :=
  (first <- py_index (series tiff) 0 ;;
   Returns (shapes_all_equal (scene_shape first) (series tiff)))%py.

(** ** [TiffReader._guess_tiff_dims] and [TiffReader._get_tiff_properties] *)

Definition mem (c : ascii) (l : list ascii) : bool :=
  if in_dec ascii_dec c l then true else false.

(** [_guess_tiff_dims] is a [@staticmethod] with the parameters [tiff] and [S];
    its body also reads [self] and [single_scene_dims], which it does not
    bind, so Python looks them up in the namespace of the module. A
    [Namespace] says what is found there: the [guess_dim_order] of the object
    bound to [self], and the value of [single_scene_dims]. *)
Record Namespace : Type := {
  ns_self : option (list nat -> list ascii);
  ns_single_scene_dims : option (list ascii)
}.

(** The namespace of [tiff_reader.py] itself: the module binds neither name. *)
Definition module_namespace : Namespace :=
  {| ns_self := None; ns_single_scene_dims := None |}.

(** The properties record. *)
Record TiffProperties : Set := {
  props_dims : list ascii;
  props_shape : list nat;
  props_dtype : dtype
}.

Section Resolver.

(** [Dimensions.DefaultOrder] and [Dimensions.Scene] come from
    [..constants], which is not among the sources: they are parameters. *)
Variable DefaultOrder : list ascii.
Variable Scene : ascii.

(** The inner [for guessed_dim in guess] loop: the first guessed label that
    is not in [best_guess] yet. *)
Fixpoint first_unused (guess best_guess : list ascii) : option ascii :=
  match guess with
  | [] => None
  | guessed_dim :: rest =>
      if negb (mem guessed_dim best_guess) then Some guessed_dim
      else first_unused rest best_guess
  end.

(** The outer [for dim_from_meta in single_scene_dims] loop, with
    [best_guess] as it grows by [append]. *)
Fixpoint best_guess_loop (guess single_scene_dims best_guess : list ascii) : list ascii :=
  match single_scene_dims with
  | [] => best_guess
  | dim_from_meta :: rest =>
      if mem dim_from_meta DefaultOrder then
        best_guess_loop guess rest (best_guess ++ [dim_from_meta])
      else
        match first_unused guess best_guess with
        | Some guessed_dim => best_guess_loop guess rest (best_guess ++ [guessed_dim])
        | None => best_guess_loop guess rest (best_guess ++ [dim_from_meta])
        end
  end.

Definition _guess_tiff_dims (ns : Namespace) (tiff : TiffFile) (S : Z)
  : outcome (list ascii) :=
  match ns_self ns with
  | None => Raises NameError
  | Some guess_dim_order =>
      (scene <- py_index (series tiff) S ;;
       let guess := guess_dim_order (pages_shape (scene_pages scene)) in
       match ns_single_scene_dims ns with
       | None => Raises NameError
       | Some single_scene_dims =>
           Returns (best_guess_loop guess single_scene_dims [])
       end)%py
  end.

(** [all([d in Dimensions.DefaultOrder for d in single_scene_dims])]. *)
Definition all_recognized (single_scene_dims : list ascii) : bool :=
  forallb (fun d => mem d DefaultOrder) single_scene_dims.

(** [len(tiff.series) > 1 and _scene_shape_is_consistent(tiff, S)]. *)
Definition add_scene_dimension (tiff : TiffFile) (S : Z) : outcome bool :=
  if (1 <? length (series tiff))%nat then _scene_shape_is_consistent tiff S
  else Returns false.

Definition _get_tiff_properties (ns : Namespace) (f : TiffFile) (S : Z)
  : outcome TiffProperties :=
  (scene <- py_index (series f) S ;;
   let single_scene_dims := axes (scene_pages scene) in
   let single_scene_shape := pages_shape (scene_pages scene) in
   page0 <- py_index (pages f) 0 ;;
   let dtype := page_dtype page0 in
   if all_recognized single_scene_dims then
     with_scene <- add_scene_dimension f S ;;
     if with_scene : bool then
       Returns {| props_dims := Scene :: single_scene_dims;
                  props_shape := length (series f) :: single_scene_shape;
                  props_dtype := dtype |}
     else
       Returns {| props_dims := single_scene_dims;
                  props_shape := single_scene_shape;
                  props_dtype := dtype |}
   else
     dims_best_guess <- _guess_tiff_dims ns f S ;;
     with_scene <- add_scene_dimension f S ;;
     if with_scene : bool then
       Returns {| props_dims := Scene :: dims_best_guess;
                  props_shape := length (series f) :: single_scene_shape;
                  props_dtype := dtype |}
     else
       Returns {| props_dims := dims_best_guess;
                  props_shape := single_scene_shape;
                  props_dtype := dtype |})%py.

(** ** The cached accessors [dims], [shape], [dtype] *)

(** The reader: its file and scene parameter, the three cached attributes,
    and a counter of the calls of [_get_tiff_properties] made so far, kept
    to observe how often the file is introspected. *)
Record TiffReader : Set := {
  _file : TiffFile;
  specific_s_index : Z;
  _dims : option (list ascii);
  _shape : option (list nat);
  _dtype : option dtype;
  introspections : nat
}.

(** [__init__]: [_dtype] and [_shape] start as [None]; [_dims] is set by
    [Reader.__init__], which is not among the sources, and starts as
    [None] too (the cache is empty until the first access). *)
Definition TiffReader_init (data : TiffFile) (S : Z) : TiffReader :=
  {| _file := data; specific_s_index := S;
     _dims := None; _shape := None; _dtype := None;
     introspections := 0 |}.

(** The body shared by the three accessors: call [_get_tiff_properties] and
    store the three fields of its result. *)
Definition populate (ns : Namespace) (r : TiffReader) : TiffReader * outcome unit :=
  match _get_tiff_properties ns (_file r) (specific_s_index r) with
  | Returns props =>
      ({| _file := _file r; specific_s_index := specific_s_index r;
          _dims := Some (props_dims props);
          _shape := Some (props_shape props);
          _dtype := Some (props_dtype props);
          introspections := S (introspections r) |}, Returns tt)
  | Raises e =>
      ({| _file := _file r; specific_s_index := specific_s_index r;
          _dims := _dims r; _shape := _shape r; _dtype := _dtype r;
          introspections := S (introspections r) |}, Raises e)
  | OutOfFuel => (r, OutOfFuel)
  end.

(** What an accessor hands back: the cached attribute, whatever it holds. *)
Inductive value : Set :=
| VNone
| VDims (d : list ascii)
| VShape (s : list nat)
| VDtype (t : dtype).

Definition attr {A} (inj : A -> value) (a : option A) : value :=
  match a with
  | Some x => inj x
  | None => VNone
  end.

(** [if self._x is None: ...populate...] followed by [return self._x]. *)
Definition accessor_body (ns : Namespace) (r : TiffReader)
           (is_none : bool) (get : TiffReader -> value)
  : TiffReader * outcome value :=
  if is_none then
    let (r', o) := populate ns r in
    match o with
    | Returns _ => (r', Returns (get r'))
    | Raises e => (r', Raises e)
    | OutOfFuel => (r', OutOfFuel)
    end
  else (r, Returns (get r)).

Definition is_None {A} (a : option A) : bool :=
  match a with
  | None => true
  | Some _ => false
  end.

Definition dims (ns : Namespace) (r : TiffReader) : TiffReader * outcome value :=
  accessor_body ns r (is_None (_dims r)) (fun r' => attr VDims (_dims r')).

Definition shape (ns : Namespace) (r : TiffReader) : TiffReader * outcome value :=
  accessor_body ns r (is_None (_shape r)) (fun r' => attr VShape (_shape r')).

Definition dtype_of (ns : Namespace) (r : TiffReader) : TiffReader * outcome value :=
  accessor_body ns r (is_None (_dtype r)) (fun r' => attr VDtype (_dtype r')).

(** A sequence of accesses on one reader. *)
Inductive accessor : Set := Dims | Shape | Dtype.

Definition call (ns : Namespace) (a : accessor) (r : TiffReader)
  : TiffReader * outcome value :=
  match a with
  | Dims => dims ns r
  | Shape => shape ns r
  | Dtype => dtype_of ns r
  end.

Fixpoint run (ns : Namespace) (calls : list accessor) (r : TiffReader)
  : TiffReader * list (outcome value) :=
  match calls with
  | [] => (r, [])
  | a :: rest =>
      let (r1, o) := call ns a r in
      let (r2, os) := run ns rest r1 in
      (r2, o :: os)
  end.

(** The value an access is expected to give for a properties record. *)
Definition field_of (props : TiffProperties) (a : accessor) : value :=
  match a with
  | Dims => VDims (props_dims props)
  | Shape => VShape (props_shape props)
  | Dtype => VDtype (props_dtype props)
  end.

End Resolver.

(** ** Grids of positions *)

Definition prod (shape : list nat) : nat := fold_right Nat.mul 1 shape.

(** [np.ndenumerate] / [np.ndindex]: the positions of an array of the given
    shape, in row-major (C) order. *)
Fixpoint ndindex (shape : list nat) : list (list nat) :=
  match shape with
  | [] => [[]]
  | n :: rest => flat_map (fun i => map (cons i) (ndindex rest)) (seq 0 n)
  end.

(** The place of a position in the flat, row-major storage of an array. *)
Fixpoint ravel (shape np_index : list nat) : nat :=
  match shape, np_index with
  | _ :: rest, i :: np_index' => i * prod rest + ravel rest np_index'
  | _, _ => 0
  end.

(** [enumerate(xs)]. *)
Definition enumerate {A} (xs : list A) : list (nat * A) :=
  combine (seq 0 (length xs)) xs.

Fixpoint replace_nth {A} (n : nat) (l : list A) (x : A) : list A :=
  match l, n with
  | [], _ => []
  | _ :: l', O => x :: l'
  | a :: l', S n' => a :: replace_nth n' l' x
  end.

Fixpoint zip_with {A B C} (f : A -> B -> C) (xs : list A) (ys : list B) : list C :=
  match xs, ys with
  | x :: xs', y :: ys' => f x y :: zip_with f xs' ys'
  | _, _ => []
  end.

(** ** The lazy array of [_read_delayed] *)

(** [da.from_delayed(delayed(TiffReader._imread)(file, scene, page),
    shape=..., dtype=...)]: a deferred decode with its declared shape and
    dtype. *)
Record delayed_node : Set := {
  node_scene : nat;
  node_page : nat;
  node_shape : list nat;
  node_dtype : dtype
}.

(** [lazy_arrays]: an object array, a cell being empty until it is assigned. *)
Record object_array : Set := {
  grid_shape : list nat;
  grid_cells : list (option delayed_node)
}.

(** [np.ndarray(shape, dtype=object)]. *)
Definition np_ndarray (shape : list nat) : object_array :=
  {| grid_shape := shape; grid_cells := repeat None (prod shape) |}.

(** [lazy_arrays[np_index]] and [lazy_arrays[np_index] = x]. *)
Definition grid_get (g : object_array) (np_index : list nat) : option delayed_node :=
  match nth_error (grid_cells g) (ravel (grid_shape g) np_index) with
  | Some c => c
  | None => None
  end.

Definition grid_set (g : object_array) (np_index : list nat) (x : delayed_node)
  : object_array :=
  {| grid_shape := grid_shape g;
     grid_cells := replace_nth (ravel (grid_shape g) np_index) (grid_cells g) (Some x) |}.

(** The dask array that is built: the block merge of the grid, possibly with
    the leading axis indexed out ([data[0, :]]). *)
Inductive darray : Set :=
| da_block (lazy_arrays : object_array)
| da_getitem0 (data : darray).

Fixpoint grid_of (data : darray) : object_array :=
  match data with
  | da_block g => g
  | da_getitem0 d => grid_of d
  end.

(** The body of the [for all_page_index, (np_index, _) in enumerate(...)]
    loop. *)
Definition fill_step (sample : ndarray) (g : object_array)
           (it : nat * list nat) : object_array :=
  let (all_page_index, np_index) := it in
  let scene_index := hd 0 np_index in
  let this_page_index := all_page_index / (scene_index + 1) in
  grid_set g np_index
           {| node_scene := scene_index; node_page := this_page_index;
              node_shape := nd_shape sample; node_dtype := nd_dtype sample |}.

Definition fill_lazy_arrays (operating_shape : list nat) (sample : ndarray)
  : object_array :=
  fold_left (fill_step sample) (enumerate (ndindex operating_shape))
            (np_ndarray operating_shape).

(** [t[:-2]] on a tuple. *)
Definition drop_last2 {A} (t : list A) : list A := firstn (length t - 2) t.

Definition _read_delayed (tiff : TiffFile) (S : Z) : outcome darray :=
  (let scenes := series tiff in
   first <- py_index scenes 0 ;;
   let operating_shape := scene_shape first in
   consistent <- _scene_shape_is_consistent tiff S ;;
   selected <- (if negb consistent then
                  chosen <- py_index scenes S ;;
                  Returns (scene_shape chosen, [chosen])
                else Returns (operating_shape, scenes)) ;;
   let operating_shape := fst selected in
   let scenes := snd selected in
   scene0 <- py_index scenes 0 ;;
   page0 <- py_index (items (scene_pages scene0)) 0 ;;
   let sample := page_array page0 in
   let operating_shape := length scenes :: operating_shape in
   let operating_shape := drop_last2 operating_shape ++ [1; 1] in
   let lazy_arrays := fill_lazy_arrays operating_shape sample in
   let data := da_block lazy_arrays in
   if (length scenes =? 1)%nat then Returns (da_getitem0 data)
   else Returns data)%py.

(** ** Forcing a lazy array *)

(** [TiffReader._imread]. *)
Definition _imread (img : TiffFile) (scene page : nat) : outcome ndarray :=
  (sc <- py_index (series img) (Z.of_nat scene) ;;
   pg <- py_index (items (scene_pages sc)) (Z.of_nat page) ;;
   Returns (page_array pg))%py.

(** [da.block] on a grid of chunks that all have the declared shape [cshape]:
    grid and chunk shapes are aligned on their last axes (missing leading
    axes have extent 1), every axis of the result is the product of the two
    extents, and the element at a position is found in the chunk given by the
    quotients of its coordinates, at the remainders. *)
Definition pad_left (n : nat) (shape : list nat) : list nat :=
  repeat 1 (n - length shape) ++ shape.

Definition block_shape (gshape cshape : list nat) : list nat :=
  let nd := Nat.max (length gshape) (length cshape) in
  zip_with Nat.mul (pad_left nd gshape) (pad_left nd cshape).

Definition block_data (gshape cshape : list nat) (chunks : list (list Z)) : list Z :=
  let nd := Nat.max (length gshape) (length cshape) in
  let g := pad_left nd gshape in
  let c := pad_left nd cshape in
  map (fun position =>
         let chunk := nth (ravel g (zip_with Nat.div position c)) chunks [] in
         nth (ravel c (zip_with Nat.modulo position c)) chunk 0%Z)
      (ndindex (zip_with Nat.mul g c)).

(** Forcing one node: decode the page; a page whose decoded shape is not the
    declared one cannot be merged and is reported as [ValueError]. *)
Definition force_node (tiff : TiffFile) (cell : option delayed_node) : outcome (list Z) :=
  match cell with
  | None => Raises TypeError
  | Some node =>
      (a <- _imread tiff (node_scene node) (node_page node) ;;
       if shape_eqb (nd_shape a) (node_shape node) then Returns (nd_data a)
       else Raises ValueError)%py
  end.

Fixpoint force_all (tiff : TiffFile) (cells : list (option delayed_node))
  : outcome (list (list Z)) :=
  match cells with
  | [] => Returns []
  | cell :: rest =>
      (chunk <- force_node tiff cell ;;
       chunks <- force_all tiff rest ;;
       Returns (chunk :: chunks))%py
  end.

(** Shape and dtype of the merge, known without forcing anything. *)
Definition declared (g : object_array) : option (list nat * dtype) :=
  match grid_cells g with
  | Some node :: _ => Some (block_shape (grid_shape g) (node_shape node), node_dtype node)
  | _ => None
  end.

Fixpoint da_shape (data : darray) : option (list nat) :=
  match data with
  | da_block g => option_map fst (declared g)
  | da_getitem0 d => option_map (@tl nat) (da_shape d)
  end.

(** [data.compute()]. Indexing out the leading axis needs at least two axes
    and a leading extent of at least 1. *)
Fixpoint compute (tiff : TiffFile) (data : darray) : outcome ndarray :=
  match data with
  | da_block g =>
      match declared g with
      | None => Raises ValueError
      | Some (shp, dt) =>
          (chunks <- force_all tiff (grid_cells g) ;;
           match grid_cells g with
           | Some node :: _ =>
               Returns {| nd_shape := shp; nd_dtype := dt;
                          nd_data := block_data (grid_shape g) (node_shape node) chunks |}
           | _ => Raises ValueError
           end)%py
      end
  | da_getitem0 d =>
      (a <- compute tiff d ;;
       match nd_shape a with
       | n :: m :: rest =>
           if (n =? 0)%nat then Raises IndexError
           else Returns {| nd_shape := m :: rest; nd_dtype := nd_dtype a;
                           nd_data := firstn (prod (m :: rest)) (nd_data a) |}
       | _ => Raises IndexError
       end)%py
  end.

(** ** [TiffReader._read_immediate] *)

(** [np.promote_types] on the dtypes at hand: the larger unsigned integer,
    a float wide enough for the integer it meets. *)
Definition promote_types (a b : dtype) : dtype :=
  match a, b with
  | float64, _ | _, float64 => float64
  | float32, uint32 | uint32, float32 => float64
  | float32, _ | _, float32 => float32
  | uint32, _ | _, uint32 => uint32
  | uint16, _ | _, uint16 => uint16
  | uint8, uint8 => uint8
  end.

(** [np.stack(arrays)]: a new leading axis; the arrays must agree in shape,
    and the result has the common dtype of all of them. *)
Definition np_stack (arrays : list ndarray) : outcome ndarray :=
  match arrays with
  | [] => Raises ValueError
  | a :: _ =>
      if forallb (fun b => shape_eqb (nd_shape b) (nd_shape a)) arrays then
        Returns {| nd_shape := length arrays :: nd_shape a;
                   nd_dtype := fold_left promote_types (map nd_dtype arrays) (nd_dtype a);
                   nd_data := concat (map nd_data arrays) |}
      else Raises ValueError
  end.

Definition _read_immediate (tiff : TiffFile) (S : Z) : outcome ndarray :=
  (let scenes := series tiff in
   consistent <- _scene_shape_is_consistent tiff S ;;
   if negb consistent then
     chosen <- py_index scenes S ;;
     Returns (scene_array chosen)
   else if (1 <? length scenes)%nat then
     np_stack (map scene_array scenes)
   else Returns (file_array tiff))%py.

(** ** Vocabulary of the statements *)

(** The cursor of a reader over [buffer], standing at offset [p]. *)
Definition at_pos (buffer : list byte) (p : Z) : BufferReader :=
  {| content := buffer; endianness := firstn 2 buffer; pos := p |}.

(** [(description_length, description_offset)] as taken from an entry. *)
Definition found_fields (en : Entry) : Z * Z := (count en - 1, value_offset en)%Z.

(** How the directory walk ends on a chain of directories. *)
Definition walk_result (ifds : list (list Entry)) : flow (option (list byte)) (Z * Z) :=
  match first_description ifds with
  | Some en => Fall (found_fields en)
  | None => Leave None
  end.

(** What the extractor answers on a container, by its first description
    entry. *)
Definition description_of (b : list byte) (ifds : list (list Entry))
  : outcome (option (list byte)) :=
  match first_description ifds with
  | None => Returns None
  | Some en =>
      if (value_offset en =? 0)%Z then Raises TypeError
      else if too_large b (value_offset en) then Raises OverflowError
      else if too_large b (count en - 1) then Raises OverflowError
      else Returns (Some (stream_read b (value_offset en) (count en - 1)))
  end.

(** No directory of the chain has an entry with tag 270. *)
Definition no_description (ifds : list (list Entry)) : Prop :=
  Forall (Forall (fun en => tag en <> 270%Z)) ifds.

(** All scenes of the file have one [shape]. *)
Definition all_same_shape (tiff : TiffFile) : Prop :=
  forall a b, In a (series tiff) -> In b (series tiff) -> scene_shape a = scene_shape b.

(** The label put in place of an unrecognized symbol [c] that follows the
    labels [pre]. *)
Definition substitute (guess pre : list ascii) (c : ascii) : ascii :=
  match first_unused guess pre with
  | Some guessed_dim => guessed_dim
  | None => c
  end.

(** The three cached attributes hold the fields of [props]. *)
Definition cached (props : TiffProperties) (r : TiffReader) : Prop :=
  _dims r = Some (props_dims props) /\
  _shape r = Some (props_shape props) /\
  _dtype r = Some (props_dtype props).

(** The node that the loop of [_read_delayed] stores for one item of the
    enumeration. *)
Definition node_for (sample : ndarray) (it : nat * list nat) : delayed_node :=
  {| node_scene := hd 0 (snd it);
     node_page := fst it / (hd 0 (snd it) + 1);
     node_shape := nd_shape sample;
     node_dtype := nd_dtype sample |}.

(** A file with one scene of shape [(h, w)] made of the single page [page];
    the decoder gives the same array for the page, the scene and the file. *)
Definition single_page_2d_container (tiff : TiffFile) (page : TiffPage) (h w : nat) : Prop :=
  exists scene,
    series tiff = [scene] /\
    scene_shape scene = [h; w] /\
    items (scene_pages scene) = [page] /\
    nd_shape (page_array page) = [h; w] /\
    length (nd_data (page_array page)) = h * w /\
    scene_array scene = page_array page /\
    file_array tiff = scene_array scene.

(** ** Sample inputs *)

(** A little-endian classic file: header, one directory at offset 8 with an
    ImageWidth entry and an ImageDescription entry (count 4, offset 38), a
    next-directory offset of 0, and the text [abc] with its terminator. *)
Definition classic_abc : list byte :=
  [x49; x49; x2a; x00;  x08; x00; x00; x00;
   x02; x00;
   x00; x01;  x03; x00;  x01; x00; x00; x00;  x05; x00; x00; x00;
   x0e; x01;  x02; x00;  x04; x00; x00; x00;  x26; x00; x00; x00;
   x00; x00; x00; x00;
   x61; x62; x63; x00].

Definition image_width_entry : Entry :=
  {| tag := 256; typ := 3; count := 1; value_offset := 5 |}.

Definition classic_abc_ifds : list (list Entry) :=
  [[image_width_entry; {| tag := 270; typ := 2; count := 4; value_offset := 38 |}]].

(** A little-endian classic file whose only directory has no description. *)
Definition classic_plain : list byte :=
  [x49; x49; x2a; x00;  x08; x00; x00; x00;
   x01; x00;
   x00; x01;  x03; x00;  x01; x00; x00; x00;  x05; x00; x00; x00;
   x00; x00; x00; x00].

(** A big-endian BigTIFF file: directory at offset 16 with one entry, no
    description. *)
Definition big_plain : list byte :=
  [x4d; x4d; x00; x2b;  x00; x08;  x00; x00;
   x00; x00; x00; x00; x00; x00; x00; x10;
   x00; x00; x00; x00; x00; x00; x00; x01;
   x01; x00;  x00; x03;
   x00; x00; x00; x00; x00; x00; x00; x01;
   x00; x00; x00; x00; x00; x00; x00; x05;
   x00; x00; x00; x00; x00; x00; x00; x00].

(** A classic file whose description entry stores a count of 0 and the
    offset 26; the stream goes on with [hi!] from there. *)
Definition classic_count0 : list byte :=
  [x49; x49; x2a; x00;  x08; x00; x00; x00;
   x01; x00;
   x0e; x01;  x02; x00;  x00; x00; x00; x00;  x1a; x00; x00; x00;
   x00; x00; x00; x00;
   x68; x69; x21].

Definition classic_count0_ifds : list (list Entry) :=
  [[{| tag := 270; typ := 2; count := 0; value_offset := 26 |}]].

(** The same with a stored offset of 0. *)
Definition classic_count0_offset0 : list byte :=
  [x49; x49; x2a; x00;  x08; x00; x00; x00;
   x01; x00;
   x0e; x01;  x02; x00;  x00; x00; x00; x00;  x00; x00; x00; x00;
   x00; x00; x00; x00;
   x68; x69; x21].

Definition classic_count0_offset0_ifds : list (list Entry) :=
  [[{| tag := 270; typ := 2; count := 0; value_offset := 0 |}]].

(** A big-endian BigTIFF file whose description entry stores a count of 0
    and the offset 2^63. *)
Definition big_count0_far : list byte :=
  [x4d; x4d; x00; x2b;  x00; x08;  x00; x00;
   x00; x00; x00; x00; x00; x00; x00; x10;
   x00; x00; x00; x00; x00; x00; x00; x01;
   x01; x0e;  x00; x02;
   x00; x00; x00; x00; x00; x00; x00; x00;
   x80; x00; x00; x00; x00; x00; x00; x00;
   x00; x00; x00; x00; x00; x00; x00; x00].

Definition big_count0_far_ifds : list (list Entry) :=
  [[{| tag := 270; typ := 2; count := 0; value_offset := 2 ^ 63 |}]].

(** A known byte-order marker followed by the magic 7. *)
Definition other_magic_stream : list byte :=
  [x49; x49; x07; x00;  x08; x00; x00; x00].

(** The default order of the upstream constants module, and a guesser that
    proposes its last [len(shape)] labels; both only serve as sample values
    of the parameters. *)
Definition sample_order : list ascii := list_ascii_of_string "STCZYX".

Definition sample_guess_dim_order (shape : list nat) : list ascii :=
  skipn (length sample_order - length shape) sample_order.

Definition plane (h w : nat) (fill : Z) : ndarray :=
  {| nd_shape := [h; w]; nd_dtype := uint16; nd_data := repeat fill (h * w) |}.

Definition sample_page (h w : nat) (fill : Z) : TiffPage :=
  {| page_array := plane h w fill; page_dtype := uint16 |}.

(** A scene of [z] pages of [h] by [w], labelled [labels]. *)
Definition sample_scene (labels : string) (z h w : nat) : TiffPageSeries :=
  {| scene_shape := [z; h; w];
     scene_pages := {| axes := list_ascii_of_string labels;
                       pages_shape := [z; h; w];
                       items := map (fun k => sample_page h w (Z.of_nat k)) (seq 0 z) |};
     scene_array := {| nd_shape := [z; h; w]; nd_dtype := uint16;
                       nd_data := flat_map (fun k => repeat (Z.of_nat k) (h * w)) (seq 0 z) |} |}.

Definition sample_file (scenes : list TiffPageSeries) : TiffFile :=
  {| series := scenes;
     pages := flat_map (fun scene => items (scene_pages scene)) scenes;
     file_array := match scenes with
                   | scene :: _ => scene_array scene
                   | [] => {| nd_shape := []; nd_dtype := uint16; nd_data := [] |}
                   end |}.

(** Three scenes of shape (5, 100, 100) labelled ZYX. *)
Definition three_scenes : TiffFile :=
  sample_file [sample_scene "ZYX" 5 100 100; sample_scene "ZYX" 5 100 100;
               sample_scene "ZYX" 5 100 100].

(** Two scenes of three 2 by 2 pages each. *)
Definition two_scenes : TiffFile :=
  sample_file [sample_scene "ZYX" 3 2 2; sample_scene "ZYX" 3 2 2].

Definition two_scenes_lazy : darray :=
  match _read_delayed two_scenes 0 with
  | Returns data => data
  | _ => da_block (np_ndarray [])
  end.

(** One scene made of one 100 by 100 page. *)
Definition single_page_100 : TiffFile :=
  {| series := [{| scene_shape := [100; 100];
                   scene_pages := {| axes := list_ascii_of_string "YX";
                                     pages_shape := [100; 100];
                                     items := [sample_page 100 100 7] |};
                   scene_array := plane 100 100 7 |}];
     pages := [sample_page 100 100 7];
     file_array := plane 100 100 7 |}.

(** A file without scenes, and a file whose scene has no page. *)
Definition no_scenes : TiffFile := sample_file [].

Definition no_pages : TiffFile := sample_file [sample_scene "ZYX" 0 4 4].

(** One scene declared with the labels QY, Q being unknown, and a namespace
    in which the two free names of [_guess_tiff_dims] are bound to the
    sample guesser and to the declared labels. *)
Definition scene_QY : TiffFile :=
  sample_file [{| scene_shape := [2; 4];
                  scene_pages := {| axes := list_ascii_of_string "QY";
                                    pages_shape := [2; 4];
                                    items := [sample_page 2 4 0] |};
                  scene_array := plane 2 4 0 |}].

Definition namespace_QY : Namespace :=
  {| ns_self := Some sample_guess_dim_order;
     ns_single_scene_dims := Some (list_ascii_of_string "QY") |}.

(** One scene declared with the labels ZQX. *)
Definition scene_ZQX : TiffFile := sample_file [sample_scene "ZQX" 3 2 2].

Definition namespace_ZQX : Namespace :=
  {| ns_self := Some sample_guess_dim_order;
     ns_single_scene_dims := Some (list_ascii_of_string "ZQX") |}.

(** Three scenes of shape (5, 100, 100) labelled ZQX. *)
Definition three_scenes_ZQX : TiffFile :=
  sample_file [sample_scene "ZQX" 5 100 100; sample_scene "ZQX" 5 100 100;
               sample_scene "ZQX" 5 100 100].

(** ** More vocabulary and sample inputs *)

(** None of the three cached attributes is set. *)
Definition cache_empty (r : TiffReader) : Prop :=
  _dims r = None /\ _shape r = None /\ _dtype r = None.

(** What may stand in the output for the declared label [d]: [d] itself when
    it is recognized; otherwise [d] itself or one of the guessed labels. *)
Definition resolved_label (DefaultOrder guess : list ascii) (d r : ascii) : Prop :=
  (In d DefaultOrder -> r = d) /\
  (~ In d DefaultOrder -> r = d \/ In r guess).

(** The scene that [_read_delayed] operates on and the number of scenes it
    lays out: the first scene and all of them when the shapes agree, the
    scene [S] alone when they do not. *)
Definition operating (tiff : TiffFile) (S : Z) (scene : TiffPageSeries) (n : nat) : Prop :=
  (all_same_shape tiff /\ n = length (series tiff) /\
   exists rest, series tiff = scene :: rest) \/
  (~ all_same_shape tiff /\ n = 1 /\ py_index (series tiff) S = Returns scene).

(** A scene that is one plane of [h] by [w]: its first page decodes to the
    array of the scene. *)
Definition plane_scene (h w : nat) (scene : TiffPageSeries) : Prop :=
  scene_shape scene = [h; w] /\
  nd_shape (scene_array scene) = [h; w] /\
  length (nd_data (scene_array scene)) = h * w /\
  exists page more,
    items (scene_pages scene) = page :: more /\
    page_array page = scene_array scene.

(** A big-endian BigTIFF header that announces offsets of 4 bytes. *)
Definition big_bad_size : list byte :=
  [x4d; x4d; x00; x2b;  x00; x04;  x00; x00;
   x00; x00; x00; x00; x00; x00; x00; x10].

(** A classic file whose description entry stores the count 10 and the
    offset 26, while only three bytes follow. *)
Definition classic_truncated : list byte :=
  [x49; x49; x2a; x00;  x08; x00; x00; x00;
   x01; x00;
   x0e; x01;  x02; x00;  x0a; x00; x00; x00;  x1a; x00; x00; x00;
   x00; x00; x00; x00;
   x68; x69; x21].

Definition classic_truncated_ifds : list (list Entry) :=
  [[{| tag := 270; typ := 2; count := 10; value_offset := 26 |}]].

(** A classic file whose only directory, at offset 8, has no entry and names
    itself as the next directory. *)
Definition classic_cycle : list byte :=
  [x49; x49; x2a; x00;  x08; x00; x00; x00;
   x00; x00;
   x08; x00; x00; x00].

(** Two scenes of different shapes. *)
Definition mixed_scenes : TiffFile :=
  sample_file [sample_scene "ZYX" 3 2 2; sample_scene "ZYX" 2 4 4].

(** A scene made of one plane, and a file of two such scenes. *)
Definition sample_plane_scene (h w : nat) (fill : Z) : TiffPageSeries :=
  {| scene_shape := [h; w];
     scene_pages := {| axes := list_ascii_of_string "YX";
                       pages_shape := [h; w];
                       items := [sample_page h w fill] |};
     scene_array := plane h w fill |}.

Definition two_planes : TiffFile :=
  sample_file [sample_plane_scene 2 3 1; sample_plane_scene 2 3 2].

Definition mixed_scenes_lazy : darray :=
  match _read_delayed mixed_scenes 1 with
  | Returns data => data
  | _ => da_block (np_ndarray [])
  end.

(** * The cursor on a fixed stream *)

Lemma read_uint_at (b : list byte) (w : nat) (p : Z) :
  read_uint w (at_pos b p) =
  match uint_at b w p with
  | Some z => Returns (z, at_pos b (p + Z.of_nat w))
  | None => Raises TruncatedInputError
  end.
Proof.
  unfold read_uint, uint_at, at_pos; simpl.
  destruct (bytes_at b p w); reflexivity.
Qed.

Lemma bind_read_uint {A} (b : list byte) (w : nat) (p z : Z) (k : Z -> Cursor A) :
  uint_at b w p = Some z ->
  bind (read_uint w) k (at_pos b p) = k z (at_pos b (p + Z.of_nat w)).
Proof.
  intros H. unfold bind. rewrite read_uint_at, H. reflexivity.
Qed.

Lemma within_stream (b : list byte) (n : Z) :
  (n <= Z.of_nat (length b))%Z -> too_large b n = false.
Proof.
  intros H. unfold too_large. apply Z.ltb_ge. lia.
Qed.

Lemma uint_at_within (b : list byte) (w : nat) (p z : Z) :
  uint_at b w p = Some z -> (p <= Z.of_nat (length b))%Z.
Proof.
  unfold uint_at, bytes_at.
  destruct ((0 <=? p) && (p + Z.of_nat w <=? Z.of_nat (length b)))%Z%bool eqn:E;
    [|discriminate].
  apply andb_prop in E. destruct E as [_ E]. apply Z.leb_le in E. lia.
Qed.

Lemma bind_seek {A} (b : list byte) (p o : Z) (k : unit -> Cursor A) :
  too_large b o = false ->
  bind (seek o) k (at_pos b p) = k tt (at_pos b o).
Proof.
  intros H. unfold bind, seek. cbn [content at_pos]. rewrite H. reflexivity.
Qed.

Lemma find_app_first {A} (f : A -> bool) (l1 l2 : list A) :
  find f (l1 ++ l2) = match find f l1 with Some x => Some x | None => find f l2 end.
Proof.
  induction l1 as [|a l1 IH]; simpl; [reflexivity|].
  destruct (f a); [reflexivity | exact IH].
Qed.

Section Walk.
Variable b : list byte.
Variable v : variant.

Lemma entry_at_fields (p : Z) (en : Entry) :
  entry_at b v p = Some en ->
  uint_at b 2 p = Some (tag en) /\
  uint_at b 2 (p + 2) = Some (typ en) /\
  uint_at b (offset_width v) (p + 4) = Some (count en) /\
  uint_at b (offset_width v) (p + 4 + Z.of_nat (offset_width v)) = Some (value_offset en).
Proof.
  unfold entry_at.
  destruct (uint_at b 2 p); [|discriminate].
  destruct (uint_at b 2 (p + 2)); [|discriminate].
  destruct (uint_at b (offset_width v) (p + 4)); [|discriminate].
  destruct (uint_at b (offset_width v) (p + 4 + Z.of_nat (offset_width v))); [|discriminate].
  intros E; injection E as <-; simpl; auto.
Qed.

Lemma scan_entries_step (p : Z) (en : Entry) (n : nat) :
  entry_at b v p = Some en ->
  scan_entries v (S n) (at_pos b p) =
  if is_description en
  then Returns (Some (found_fields en), at_pos b (p + entry_size v))
  else scan_entries v n (at_pos b (p + entry_size v)).
Proof.
  intros H. apply entry_at_fields in H. destruct H as (Ht & Hy & Hc & Ho).
  simpl scan_entries. unfold read_uint16.
  rewrite (@bind_read_uint _ _ _ _ _ _ Ht).
  change (Z.of_nat 2) with 2%Z.
  rewrite (@bind_read_uint _ _ _ _ _ _ Hy).
  change (Z.of_nat 2) with 2%Z.
  replace (p + 2 + 2)%Z with (p + 4)%Z by lia.
  rewrite (@bind_read_uint _ _ _ _ _ _ Hc).
  rewrite (@bind_read_uint _ _ _ _ _ _ Ho).
  replace (p + 4 + Z.of_nat (offset_width v) + Z.of_nat (offset_width v))%Z
    with (p + entry_size v)%Z by (unfold entry_size; lia).
  unfold is_description. destruct (tag en =? 270)%Z; reflexivity.
Qed.

Lemma scan_entries_layout (es : list Entry) :
  forall p, entries_at b v p es ->
  exists p',
    scan_entries v (length es) (at_pos b p) =
    Returns (option_map found_fields (find is_description es), at_pos b p') /\
    (find is_description es = None ->
     p' = (p + entry_size v * Z.of_nat (length es))%Z).
Proof.
  induction es as [|en es IH]; intros p H.
  - exists p. split; [reflexivity|]. intros _. simpl. lia.
  - destruct H as [Hen Hes].
    simpl length. rewrite (@scan_entries_step _ _ _ Hen). simpl find.
    destruct (is_description en).
    + eexists. split; [reflexivity|]. discriminate.
    + destruct (IH _ Hes) as (p' & Hscan & Hp').
      exists p'. split; [exact Hscan|].
      intros Hnone. rewrite (Hp' Hnone). lia.
Qed.

Lemma walk_ifds_chain (p : Z) (ifds : list (list Entry)) :
  ifd_chain b v p ifds ->
  forall fuel, (length ifds < fuel)%nat ->
  exists p', walk_ifds v fuel (at_pos b p) = Returns (walk_result ifds, at_pos b p').
Proof.
  induction 1 as [p H0 | p off es ifds Hoff Hnz Hn Hes Hrest IH]; intros fuel Hfuel.
  - destruct fuel as [|fuel]; [inversion Hfuel|].
    simpl walk_ifds. rewrite (@bind_read_uint _ _ _ _ _ _ H0). simpl.
    eexists; reflexivity.
  - destruct fuel as [|fuel]; [inversion Hfuel|].
    simpl walk_ifds. rewrite (@bind_read_uint _ _ _ _ _ _ Hoff).
    apply Z.eqb_neq in Hnz. rewrite Hnz.
    rewrite bind_seek by (apply within_stream; exact (@uint_at_within _ _ _ _ Hn)).
    rewrite (@bind_read_uint _ _ _ _ _ _ Hn).
    rewrite Nat2Z.id.
    destruct (@scan_entries_layout _ _ Hes) as (p' & Hscan & Hp').
    unfold bind at 1. rewrite Hscan.
    unfold walk_result, first_description. simpl concat. rewrite find_app_first.
    destruct (find is_description es) as [en|]; simpl option_map.
    + eexists; reflexivity.
    + rewrite (Hp' eq_refl).
      apply IH. simpl in Hfuel. lia.
Qed.

End Walk.

Lemma bind_ret {A B} (a : A) (k : A -> Cursor B) (br : BufferReader) :
  bind (ret a) k br = k a br.
Proof. reflexivity. Qed.

Lemma bind_assoc {A B C} (m : Cursor A) (k : A -> Cursor B) (h : B -> Cursor C)
      (br : BufferReader) :
  bind (bind m k) h br = bind m (fun x => bind (k x) h) br.
Proof.
  unfold bind. destruct (m br) as [[a br']| |]; reflexivity.
Qed.

Lemma read_description (b : list byte) (o n p : Z) :
  obind ((seek o ;;; bs <- buffer_read n ;; ret (Some bs))%cursor (at_pos b p))
        (fun r => Returns (fst r)) =
  if too_large b o then Raises OverflowError
  else if too_large b n then Raises OverflowError
  else Returns (Some (stream_read b o n)).
Proof.
  unfold bind, seek, buffer_read, ret. cbn [content at_pos pos].
  destruct (too_large b o); [reflexivity|]. cbn [content pos].
  destruct (too_large b n); reflexivity.
Qed.

Lemma get_image_description_container (b : list byte) (v : variant) (ifds : list (list Entry)) :
  container b v ifds ->
  forall fuel, (length ifds < fuel)%nat ->
  get_image_description fuel b = description_of b ifds.
Proof.
  intros [(Hend & Hmagic & Hbig) Hchain] fuel Hfuel.
  destruct (walk_ifds_chain Hchain Hfuel) as (p' & Hwalk).
  unfold get_image_description. rewrite Hend. simpl negb. cbv iota.
  change (BufferReader_enter b) with (at_pos b 2).
  unfold read_uint16. rewrite (@bind_read_uint _ _ _ _ _ _ Hmagic).
  change (2 + Z.of_nat 2)%Z with 4%Z.
  unfold description_of. unfold walk_result in Hwalk.
  destruct v; simpl magic_of; simpl first_ifd_field in Hwalk.
  - change (42 =? 42)%Z with true. cbv iota.
    unfold bind at 1. rewrite Hwalk.
    destruct (first_description ifds) as [en|]; [|reflexivity].
    unfold found_fields. cbv iota beta.
    change (42 =? 43)%Z with false. cbv iota. rewrite bind_ret. cbv iota beta.
    destruct (value_offset en =? 0)%Z; [reflexivity | apply read_description].
  - change (43 =? 42)%Z with false. cbv iota. rewrite bind_ret. cbv iota beta.
    change (43 =? 43)%Z with true. cbv iota.
    destruct Hbig as [H8 H0].
    rewrite bind_assoc. rewrite (@bind_read_uint _ _ _ _ _ _ H8).
    change (negb (8 =? 8)%Z) with false. cbv iota.
    change (4 + Z.of_nat 2)%Z with 6%Z.
    rewrite bind_assoc. rewrite (@bind_read_uint _ _ _ _ _ _ H0).
    change (negb (0 =? 0)%Z) with false. cbv iota.
    change (6 + Z.of_nat 2)%Z with 8%Z.
    unfold bind at 1. rewrite Hwalk.
    destruct (first_description ifds) as [en|]; [|reflexivity].
    unfold found_fields. cbv iota beta.
    destruct (value_offset en =? 0)%Z; [reflexivity | apply read_description].
Qed.

(** * Positions of a grid *)

Lemma flat_map_length_const {A B} (f : A -> list B) (m : nat) (l : list A) :
  (forall a, length (f a) = m) -> length (flat_map f l) = length l * m.
Proof.
  intros Hf. induction l as [|a l IH]; simpl; [reflexivity|].
  rewrite length_app, Hf, IH. reflexivity.
Qed.

Lemma ndindex_length (shape : list nat) : length (ndindex shape) = prod shape.
Proof.
  induction shape as [|n rest IH]; simpl; [reflexivity|].
  rewrite (@flat_map_length_const _ _ _ (prod rest)).
  - rewrite length_seq. reflexivity.
  - intros a. rewrite length_map. exact IH.
Qed.

(** The [k]-th position of the blocks [i :: _] for [i = a, a+1, ...]. *)
Lemma nth_error_blocks (L : list (list nat)) (n : nat) :
  forall a k np_index,
    nth_error (flat_map (fun i => map (cons i) L) (seq a n)) k = Some np_index ->
    exists i rest,
      np_index = i :: rest /\ a <= i < a + n /\
      (i - a) * length L <= k /\
      nth_error L (k - (i - a) * length L) = Some rest.
Proof.
  induction n as [|n IH]; intros a k np_index H; simpl in H.
  - destruct k; discriminate.
  - destruct (Nat.lt_ge_cases k (length L)) as [Hlt | Hge].
    + rewrite nth_error_app1 in H by (rewrite length_map; exact Hlt).
      rewrite nth_error_map in H.
      destruct (nth_error L k) as [rest|] eqn:E; [|discriminate].
      injection H as <-. exists a, rest.
      rewrite Nat.sub_diag. simpl. rewrite Nat.sub_0_r.
      repeat split; try lia. exact E.
    + rewrite nth_error_app2 in H by (rewrite length_map; exact Hge).
      rewrite length_map in H.
      destruct (IH _ _ _ H) as (i & rest & -> & Hi & Hk & Hrest).
      exists i, rest.
      replace (i - a) with (S (i - S a)) by lia. simpl.
      repeat split; try lia.
      replace (k - (length L + (i - S a) * length L))
        with (k - length L - (i - S a) * length L) by lia.
      exact Hrest.
Qed.

(** [np.ndenumerate] runs in storage order: the [k]-th position it yields is
    stored at place [k], and lies inside the array. *)
Lemma ndindex_nth (shape : list nat) :
  forall k np_index,
    nth_error (ndindex shape) k = Some np_index ->
    ravel shape np_index = k /\ Forall2 lt np_index shape.
Proof.
  induction shape as [|n rest IH]; intros k np_index H; simpl in H.
  - destruct k as [|k]; simpl in H.
    + injection H as <-. split; [reflexivity | constructor].
    + destruct k; discriminate.
  - destruct (nth_error_blocks _ _ _ _ H) as (i & tail & -> & Hi & Hk & Htail).
    rewrite Nat.sub_0_r in Hk, Htail.
    destruct (IH _ _ Htail) as [Hr Hlt].
    rewrite ndindex_length in Hk, Hr.
    split.
    + simpl. rewrite Hr. lia.
    + constructor; [lia | exact Hlt].
Qed.

Lemma ndindex_ravel (shape : list nat) :
  map (ravel shape) (ndindex shape) = seq 0 (prod shape).
Proof.
  apply nth_error_ext. intros k.
  rewrite nth_error_map.
  destruct (nth_error (ndindex shape) k) as [np_index|] eqn:E; simpl.
  - destruct (ndindex_nth _ _ E) as [-> _].
    assert (k < prod shape).
    { rewrite <- ndindex_length. apply nth_error_Some. congruence. }
    symmetry. rewrite nth_error_seq.
    destruct (Nat.ltb_spec k (prod shape)); [reflexivity | lia].
  - apply nth_error_None in E. rewrite ndindex_length in E.
    symmetry. apply nth_error_None. rewrite length_seq. exact E.
Qed.

Lemma ndindex_in_bounds (shape np_index : list nat) :
  In np_index (ndindex shape) -> Forall2 lt np_index shape.
Proof.
  intros H. apply In_nth_error in H. destruct H as [k Hk].
  apply (ndindex_nth _ _ Hk).
Qed.

Lemma replace_nth_middle {A} (done rest : list A) (old x : A) :
  replace_nth (length done) (done ++ old :: rest) x = done ++ x :: rest.
Proof.
  induction done as [|d done IH]; simpl; [reflexivity|].
  rewrite IH. reflexivity.
Qed.

Lemma fill_fold (shape : list nat) (sample : ndarray) (L : list (list nat)) :
  forall a done rest,
    (forall j np_index, nth_error L j = Some np_index -> ravel shape np_index = a + j) ->
    length done = a ->
    length rest = length L ->
    fold_left (fill_step sample) (combine (seq a (length L)) L)
              {| grid_shape := shape; grid_cells := done ++ rest |} =
    {| grid_shape := shape;
       grid_cells := done ++ map (fun it => Some (node_for sample it))
                                 (combine (seq a (length L)) L) |}.
Proof.
  induction L as [|np_index L IH]; intros a done rest Hr Hd Hl.
  - destruct rest; [reflexivity | discriminate].
  - destruct rest as [|old rest]; [discriminate|].
    simpl length. simpl seq. simpl combine. simpl fold_left. simpl map.
    change {| node_scene := hd 0 np_index;
              node_page := a / (hd 0 np_index + 1);
              node_shape := nd_shape sample;
              node_dtype := nd_dtype sample |}
      with (node_for sample (a, np_index)).
    unfold grid_set. simpl grid_shape. simpl grid_cells.
    rewrite (Hr 0 np_index eq_refl), Nat.add_0_r, <- Hd.
    rewrite replace_nth_middle.
    change (done ++ Some (node_for sample (length done, np_index)) :: rest)
      with (done ++ [Some (node_for sample (length done, np_index))] ++ rest).
    rewrite app_assoc.
    rewrite (IH (S (length done)) (done ++ [Some (node_for sample (length done, np_index))]) rest).
    + rewrite <- app_assoc. reflexivity.
    + intros j idx Hj. rewrite (Hr (S j) idx Hj). lia.
    + rewrite length_app. simpl. lia.
    + simpl in Hl. lia.
Qed.

Lemma fill_lazy_arrays_cells (shape : list nat) (sample : ndarray) :
  fill_lazy_arrays shape sample =
  {| grid_shape := shape;
     grid_cells := map (fun it => Some (node_for sample it)) (enumerate (ndindex shape)) |}.
Proof.
  unfold fill_lazy_arrays, np_ndarray, enumerate.
  change (repeat None (prod shape)) with ([] ++ repeat (@None delayed_node) (prod shape)).
  rewrite (@fill_fold shape sample (ndindex shape) 0 [] (repeat None (prod shape))).
  - reflexivity.
  - intros j np_index H. apply (ndindex_nth _ _ H).
  - reflexivity.
  - rewrite repeat_length, ndindex_length. reflexivity.
Qed.

Lemma enumerate_nth {A} (xs : list A) (k : nat) (x : A) :
  nth_error xs k = Some x -> nth_error (enumerate xs) k = Some (k, x).
Proof.
  intros H. unfold enumerate.
  assert (Hk : k < length xs) by (apply nth_error_Some; congruence).
  rewrite (nth_error_nth' _ (0, x)) by (rewrite length_combine, length_seq; lia).
  rewrite combine_nth by (apply length_seq).
  rewrite seq_nth by exact Hk.
  rewrite (nth_error_nth _ _ _ H). reflexivity.
Qed.

Lemma fill_lazy_arrays_get (shape : list nat) (sample : ndarray)
      (all_page_index : nat) (np_index : list nat) :
  nth_error (ndindex shape) all_page_index = Some np_index ->
  grid_get (fill_lazy_arrays shape sample) np_index =
  Some (node_for sample (all_page_index, np_index)).
Proof.
  intros H. rewrite fill_lazy_arrays_cells. unfold grid_get. simpl.
  destruct (ndindex_nth _ _ H) as [-> _].
  rewrite nth_error_map, (enumerate_nth _ _ H). reflexivity.
Qed.

(** * [py_index] *)

Lemma py_index_cases {A} (l : list A) (i : Z) :
  (exists a, py_index l i = Returns a /\ In a l) \/ py_index l i = Raises IndexError.
Proof.
  unfold py_index.
  destruct ((0 <=? _) && _)%Z%bool; [|right; reflexivity].
  destruct (nth_error l _) as [a|] eqn:E; [|right; reflexivity].
  left. exists a. split; [reflexivity|]. eapply nth_error_In; eassumption.
Qed.

Lemma py_index_0_cons {A} (a : A) (l : list A) : py_index (a :: l) 0 = Returns a.
Proof.
  unfold py_index. simpl Z.ltb. cbv iota.
  replace ((0 <=? 0)%Z && (0 <? Z.of_nat (length (a :: l)))%Z) with true.
  - reflexivity.
  - symmetry. apply andb_true_intro. split; [reflexivity|].
    apply Z.ltb_lt. simpl length. lia.
Qed.

(** * [_read_delayed] *)

Lemma obind_Returns {A B} (m : outcome A) (k : A -> outcome B) (b : B) :
  obind m k = Returns b -> exists a, m = Returns a /\ k a = Returns b.
Proof.
  destruct m as [a| |]; simpl; try discriminate.
  intros H. exists a. split; [reflexivity | exact H].
Qed.

Lemma _read_delayed_grid (tiff : TiffFile) (S : Z) (data : darray) :
  _read_delayed tiff S = Returns data ->
  exists shape sample, grid_of data = fill_lazy_arrays shape sample.
Proof.
  unfold _read_delayed. intros H.
  apply obind_Returns in H. destruct H as (first & _ & H).
  apply obind_Returns in H. destruct H as (consistent & _ & H).
  apply obind_Returns in H. destruct H as (selected & _ & H).
  apply obind_Returns in H. destruct H as (scene0 & _ & H).
  apply obind_Returns in H. destruct H as (page0 & _ & H).
  destruct (length (snd selected) =? 1); injection H as <-;
    simpl; eexists _, _; reflexivity.
Qed.

(** C7: in the grid that [_read_delayed] builds, the node stored at a position
    is bound to the scene given by the position's leading coordinate and to
    the page index obtained by integer-dividing the position's rank in the
    [np.ndenumerate] order by that coordinate plus one. *)
Theorem lazy_page_index (tiff : TiffFile) (S : Z) (data : darray)
        (all_page_index : nat) (np_index : list nat) :
  _read_delayed tiff S = Returns data ->
  nth_error (ndindex (grid_shape (grid_of data))) all_page_index = Some np_index ->
  exists node,
    grid_get (grid_of data) np_index = Some node /\
    node_scene node = hd 0 np_index /\
    node_page node = all_page_index / (hd 0 np_index + 1).
Proof.
  intros Hread Hpos.
  destruct (_read_delayed_grid _ _ Hread) as (shape & sample & Hgrid).
  rewrite Hgrid in *.
  rewrite fill_lazy_arrays_cells in Hpos. simpl in Hpos.
  exists (node_for sample (all_page_index, np_index)).
  split; [apply fill_lazy_arrays_get; exact Hpos|].
  split; reflexivity.
Qed.

(** C4, as amended: on a file with no scene, or whose scenes have no page,
    [_read_delayed] fails with [IndexError], the failure of [scenes[0]] or of
    [pages[0]]. *)
Theorem read_delayed_empty (tiff : TiffFile) (S : Z) :
  series tiff = [] \/ Forall (fun scene => items (scene_pages scene) = []) (series tiff) ->
  _read_delayed tiff S = Raises IndexError.
Proof.
  intros H. unfold _read_delayed, _scene_shape_is_consistent.
  destruct (series tiff) as [|first rest] eqn:Hs.
  - reflexivity.
  - destruct H as [H|H]; [discriminate|].
    rewrite !py_index_0_cons. cbn [obind].
    destruct (negb _).
    + destruct (py_index_cases (first :: rest) S) as [(chosen & -> & Hin) | ->];
        [|reflexivity].
      cbn [obind fst snd]. rewrite py_index_0_cons. cbn [obind].
      rewrite Forall_forall in H. rewrite (H _ Hin). reflexivity.
    + cbn [obind fst snd]. rewrite py_index_0_cons. cbn [obind].
      inversion H as [|? ? Hfirst _]. rewrite Hfirst. reflexivity.
Qed.

(** * Merging a grid that holds a single chunk *)

Lemma zip_with_mul_ones (g c : list nat) :
  length g = length c -> Forall (eq 1) g -> zip_with Nat.mul g c = c.
Proof.
  revert c. induction g as [|x g IH]; intros [|y c] Hl Hg; try discriminate.
  - reflexivity.
  - inversion Hg as [|? ? <- Hg']. simpl. rewrite Nat.add_0_r.
    f_equal. apply IH; [simpl in Hl; lia | exact Hg'].
Qed.

Lemma zip_with_div_small (position c : list nat) :
  Forall2 lt position c -> zip_with Nat.div position c = repeat 0 (length position).
Proof.
  induction 1 as [|i n position c Hlt _ IH]; [reflexivity|].
  simpl zip_with. simpl length. simpl repeat.
  rewrite IH, (Nat.div_small _ _ Hlt). reflexivity.
Qed.

Lemma zip_with_mod_small (position c : list nat) :
  Forall2 lt position c -> zip_with Nat.modulo position c = position.
Proof.
  induction 1 as [|i n position c Hlt _ IH]; [reflexivity|].
  simpl zip_with. rewrite IH, (Nat.mod_small _ _ Hlt). reflexivity.
Qed.

Lemma ravel_zeros (g : list nat) : forall n, ravel g (repeat 0 n) = 0.
Proof.
  induction g as [|x g IH]; intros [|n]; simpl; try reflexivity.
  apply IH.
Qed.

Lemma map_nth_seq_all {A} (d : A) (l : list A) :
  map (fun k => nth k l d) (seq 0 (length l)) = l.
Proof.
  induction l as [|a l IH]; [reflexivity|].
  simpl length. simpl seq. simpl map. f_equal.
  rewrite <- seq_shift, map_map. exact IH.
Qed.

Lemma pad_left_length (n : nat) (shape : list nat) :
  length shape <= n -> length (pad_left n shape) = n.
Proof.
  intros H. unfold pad_left. rewrite length_app, repeat_length. lia.
Qed.

Lemma pad_left_ones (n : nat) (shape : list nat) :
  Forall (eq 1) shape -> Forall (eq 1) (pad_left n shape).
Proof.
  intros H. unfold pad_left. apply Forall_app. split; [|exact H].
  apply Forall_forall. intros x Hx. symmetry. eapply repeat_spec; eassumption.
Qed.

Lemma prod_pad_left (n : nat) (shape : list nat) : prod (pad_left n shape) = prod shape.
Proof.
  unfold pad_left. induction (n - length shape) as [|m IH]; [reflexivity|].
  simpl. rewrite Nat.add_0_r. exact IH.
Qed.

Lemma block_data_single (g c : list nat) (chunk : list Z) :
  Forall (eq 1) g -> length chunk = prod c -> block_data g c [chunk] = chunk.
Proof.
  intros Hg Hlen. unfold block_data.
  set (nd := Nat.max (length g) (length c)).
  assert (Hgl : length (pad_left nd g) = nd) by (apply pad_left_length; lia).
  assert (Hcl : length (pad_left nd c) = nd) by (apply pad_left_length; lia).
  rewrite zip_with_mul_ones by (try apply pad_left_ones; congruence).
  transitivity (map (fun k => nth k chunk 0%Z) (seq 0 (length chunk)));
    [| apply map_nth_seq_all].
  rewrite Hlen, <- (prod_pad_left nd c), <- ndindex_ravel, map_map.
  apply map_ext_in. intros position Hin.
  apply ndindex_in_bounds in Hin.
  rewrite (zip_with_div_small Hin), (zip_with_mod_small Hin), ravel_zeros.
  reflexivity.
Qed.

Lemma shape_eqb_refl (s : list nat) : shape_eqb s s = true.
Proof. unfold shape_eqb. destruct (list_eq_dec Nat.eq_dec s s); congruence. Qed.

Lemma read_single_page (tiff : TiffFile) (S : Z) (page : TiffPage) (h w : nat) :
  single_page_2d_container tiff page h w ->
  exists data,
    _read_delayed tiff S = Returns data /\
    da_shape data = Some [h; w] /\
    compute tiff data = Returns (page_array page) /\
    _read_immediate tiff S = Returns (page_array page).
Proof.
  intros (scene & Hs & Hshape & Hitems & Hpshape & Hlen & Hscene & Hfile).
  assert (Hcons : _scene_shape_is_consistent tiff S = Returns true).
  { unfold _scene_shape_is_consistent. rewrite Hs, py_index_0_cons. simpl.
    rewrite shape_eqb_refl. reflexivity. }
  assert (Hgrid : fill_lazy_arrays [1; 1; 1] (page_array page) =
                  {| grid_shape := [1; 1; 1];
                     grid_cells := [Some {| node_scene := 0; node_page := 0;
                                            node_shape := [h; w];
                                            node_dtype := nd_dtype (page_array page) |}] |}).
  { rewrite fill_lazy_arrays_cells. simpl. unfold node_for. simpl.
    rewrite Hpshape. reflexivity. }
  assert (Hread : _read_delayed tiff S =
                  Returns (da_getitem0 (da_block (fill_lazy_arrays [1; 1; 1] (page_array page))))).
  { unfold _read_delayed. rewrite Hcons, Hs, py_index_0_cons. cbn [obind negb fst snd].
    rewrite py_index_0_cons. cbn [obind]. rewrite Hitems, py_index_0_cons.
    cbn [obind]. rewrite Hshape. reflexivity. }
  assert (Hblock : block_shape [1; 1; 1] [h; w] = [1; h; w]).
  { unfold block_shape. simpl. rewrite !Nat.add_0_r. reflexivity. }
  eexists. split; [exact Hread|]. rewrite Hgrid.
  split; [|split].
  - cbn [da_shape]. unfold declared. cbn [grid_cells grid_shape node_shape node_dtype].
    rewrite Hblock. reflexivity.
  - cbn [compute]. unfold declared. cbn [grid_cells grid_shape node_shape node_dtype].
    cbn [force_all force_node node_scene node_page].
    unfold _imread. change (Z.of_nat 0) with 0%Z.
    rewrite Hs, py_index_0_cons. cbn [obind]. rewrite Hitems, py_index_0_cons.
    cbn [obind]. rewrite Hpshape, shape_eqb_refl. cbn [obind].
    rewrite Hblock. cbn [nd_shape nd_dtype nd_data].
    rewrite block_data_single; [| repeat constructor | simpl; lia].
    change (1 =? 0) with false. cbv iota.
    rewrite firstn_all2 by (simpl; lia).
    destruct (page_array page) as [shp dt dat]. simpl in *. subst shp. reflexivity.
  - unfold _read_immediate. rewrite Hcons, Hs. cbn [obind negb].
    simpl. rewrite Hfile, Hscene. reflexivity.
Qed.

(** * Scene consistency *)

Lemma shape_eqb_eq (a b : list nat) : shape_eqb a b = true <-> a = b.
Proof.
  unfold shape_eqb. destruct (list_eq_dec Nat.eq_dec a b); split; congruence.
Qed.

Lemma shapes_all_equal_Forall (s : list nat) (l : list TiffPageSeries) :
  shapes_all_equal s l = true <-> Forall (fun scene => scene_shape scene = s) l.
Proof.
  induction l as [|scene l IH]; simpl.
  - split; [constructor | reflexivity].
  - destruct (shape_eqb (scene_shape scene) s) eqn:E; simpl.
    + apply shape_eqb_eq in E. rewrite IH. split.
      * intros H. constructor; assumption.
      * intros H. inversion H; assumption.
    + split; [discriminate|]. intros H. inversion H as [|? ? Hs _].
      apply shape_eqb_eq in Hs. congruence.
Qed.

Lemma scene_shape_is_consistent_spec (tiff : TiffFile) (S : Z) :
  series tiff <> [] ->
  exists b, _scene_shape_is_consistent tiff S = Returns b /\
            (b = true <-> all_same_shape tiff).
Proof.
  intros Hne. unfold _scene_shape_is_consistent, all_same_shape.
  destruct (series tiff) as [|first rest]; [congruence|].
  rewrite py_index_0_cons. cbn [obind]. eexists. split; [reflexivity|].
  rewrite shapes_all_equal_Forall, Forall_forall. split.
  - intros H a b Ha Hb. rewrite (H _ Ha), (H _ Hb). reflexivity.
  - intros H x Hx. apply H; [exact Hx | left; reflexivity].
Qed.

Section ResolverFacts.

Variable DefaultOrder : list ascii.
Variable Scene : ascii.

Lemma mem_In (c : ascii) (l : list ascii) : mem c l = true <-> In c l.
Proof. unfold mem. destruct (in_dec ascii_dec c l); split; congruence. Qed.

Lemma mem_not_In (c : ascii) (l : list ascii) : mem c l = false <-> ~ In c l.
Proof. unfold mem. destruct (in_dec ascii_dec c l); split; congruence. Qed.

Lemma best_guess_loop_recognized (guess l : list ascii) :
  Forall (fun d => In d DefaultOrder) l ->
  forall best_guess, best_guess_loop DefaultOrder guess l best_guess = best_guess ++ l.
Proof.
  induction 1 as [|d l Hd _ IH]; intros best_guess; simpl.
  - rewrite app_nil_r. reflexivity.
  - apply mem_In in Hd. rewrite Hd, IH, <- app_assoc. reflexivity.
Qed.

Lemma first_unused_spec (guess used : list ascii) :
  match first_unused guess used with
  | Some x => exists g1 g2, guess = g1 ++ x :: g2 /\
                            Forall (fun y => In y used) g1 /\ ~ In x used
  | None => Forall (fun y => In y used) guess
  end.
Proof.
  induction guess as [|g guess IH]; simpl.
  - constructor.
  - destruct (mem g used) eqn:E; simpl.
    + apply mem_In in E.
      destruct (first_unused guess used) as [x|].
      * destruct IH as (g1 & g2 & -> & Hg1 & Hx).
        exists (g :: g1), g2. repeat split; auto.
      * constructor; assumption.
    + apply mem_not_In in E. exists [], guess. repeat split; auto.
Qed.

Lemma best_guess_loop_one_unknown (guess pre post : list ascii) (c : ascii) :
  Forall (fun d => In d DefaultOrder) pre ->
  Forall (fun d => In d DefaultOrder) post ->
  ~ In c DefaultOrder ->
  best_guess_loop DefaultOrder guess (pre ++ c :: post) [] =
  pre ++ substitute guess pre c :: post.
Proof.
  intros Hpre Hpost Hc.
  assert (Hgen : forall acc,
             best_guess_loop DefaultOrder guess (pre ++ c :: post) acc =
             best_guess_loop DefaultOrder guess (c :: post) (acc ++ pre)).
  { clear Hpost Hc. induction Hpre as [|d pre Hd _ IH]; intros acc; simpl app.
    - rewrite app_nil_r. reflexivity.
    - simpl best_guess_loop at 1. apply mem_In in Hd. rewrite Hd, IH, <- app_assoc.
      reflexivity. }
  rewrite Hgen. simpl app. simpl best_guess_loop.
  apply mem_not_In in Hc. rewrite Hc. unfold substitute.
  destruct (first_unused guess pre);
    rewrite (best_guess_loop_recognized _ Hpost), <- app_assoc; reflexivity.
Qed.

Lemma NoDup_insert (pre post : list ascii) (x : ascii) :
  NoDup (pre ++ post) -> ~ In x pre -> ~ In x post -> NoDup (pre ++ x :: post).
Proof.
  intros Hnd Hpre Hpost. apply NoDup_Add with (a := x) (l := pre ++ post).
  - apply Add_app.
  - split; [exact Hnd|]. rewrite in_app_iff. tauto.
Qed.

(** In a namespace that binds the two free names of [_guess_tiff_dims]
    ([self] to an object with the guesser [guess_dim_order],
    [single_scene_dims] to the labels [pre ++ c :: post], where only [c] is
    unrecognized), the function returns [pre ++ g :: post] of the same
    length; [g] is the first guessed label that is not in [pre], or [c]
    itself when every guessed label is in [pre]; the result has no duplicate
    as soon as [pre ++ post] has none and [g] does not occur in [post]. The
    module itself binds neither name. *)
Theorem guess_tiff_dims_one_unknown (ns : Namespace) (tiff : TiffFile) (S : Z)
        (guess_dim_order : list nat -> list ascii) (scene : TiffPageSeries)
        (pre post : list ascii) (c : ascii) :
  ns_self ns = Some guess_dim_order ->
  ns_single_scene_dims ns = Some (pre ++ c :: post) ->
  py_index (series tiff) S = Returns scene ->
  Forall (fun d => In d DefaultOrder) pre ->
  Forall (fun d => In d DefaultOrder) post ->
  ~ In c DefaultOrder ->
  let guess := guess_dim_order (pages_shape (scene_pages scene)) in
  let g := substitute guess pre c in
  _guess_tiff_dims DefaultOrder ns tiff S = Returns (pre ++ g :: post) /\
  length (pre ++ g :: post) = length (pre ++ c :: post) /\
  ((exists g1 g2, guess = g1 ++ g :: g2 /\ Forall (fun y => In y pre) g1 /\ ~ In g pre) \/
   (g = c /\ Forall (fun y => In y pre) guess)) /\
  (NoDup (pre ++ post) -> ~ In g post -> NoDup (pre ++ g :: post)).
Proof.
  intros Hself Hdims Hscene Hpre Hpost Hc guess g.
  assert (Hnotpre : ~ In c pre).
  { intros Hin. rewrite Forall_forall in Hpre. auto. }
  assert (Hsub : (exists g1 g2, guess = g1 ++ g :: g2 /\
                                Forall (fun y => In y pre) g1 /\ ~ In g pre) \/
                 (g = c /\ Forall (fun y => In y pre) guess)).
  { subst g. unfold substitute.
    pose proof (first_unused_spec guess pre) as Hspec.
    destruct (first_unused guess pre); [left | right]; auto. }
  repeat split.
  - unfold _guess_tiff_dims. rewrite Hself, Hscene. cbn [obind]. rewrite Hdims.
    f_equal. apply best_guess_loop_one_unknown; assumption.
  - rewrite !length_app. reflexivity.
  - exact Hsub.
  - intros Hnd Hgpost. apply NoDup_insert; try assumption.
    destruct Hsub as [(g1 & g2 & _ & _ & Hg) | [-> _]]; assumption.
Qed.

(** * [_get_tiff_properties] *)

Lemma add_scene_dimension_spec (tiff : TiffFile) (S : Z) :
  series tiff <> [] ->
  exists b, add_scene_dimension tiff S = Returns b /\
            (b = true <-> 1 < length (series tiff) /\ all_same_shape tiff).
Proof.
  intros Hne. unfold add_scene_dimension.
  destruct (Nat.ltb_spec 1 (length (series tiff))) as [Hlt | Hge].
  - destruct (@scene_shape_is_consistent_spec tiff S Hne) as (b & Hb & Hiff).
    exists b. split; [exact Hb|]. tauto.
  - exists false. split; [reflexivity|]. split; [discriminate | lia].
Qed.

(** When every label that the selected scene declares is in [DefaultOrder]:
    if the file has more than one scene and all scenes share one shape,
    [_get_tiff_properties] returns the declared labels with the scene label
    in front and the single-scene shape with the number of scenes in front;
    otherwise it returns the declared labels and the single-scene shape. *)
Theorem tiff_properties_recognized_labels (ns : Namespace) (tiff : TiffFile) (S : Z)
        (scene : TiffPageSeries) (page0 : TiffPage) :
  py_index (series tiff) S = Returns scene ->
  py_index (pages tiff) 0 = Returns page0 ->
  all_recognized DefaultOrder (axes (scene_pages scene)) = true ->
  let single_dims := axes (scene_pages scene) in
  let single_shape := pages_shape (scene_pages scene) in
  (1 < length (series tiff) /\ all_same_shape tiff ->
   _get_tiff_properties DefaultOrder Scene ns tiff S =
   Returns {| props_dims := Scene :: single_dims;
              props_shape := length (series tiff) :: single_shape;
              props_dtype := page_dtype page0 |}) /\
  (~ (1 < length (series tiff) /\ all_same_shape tiff) ->
   _get_tiff_properties DefaultOrder Scene ns tiff S =
   Returns {| props_dims := single_dims;
              props_shape := single_shape;
              props_dtype := page_dtype page0 |}).
Proof.
  intros Hscene Hpage Hdims single_dims single_shape.
  assert (Hne : series tiff <> []).
  { intros E. rewrite E in Hscene. destruct (py_index_cases (@nil TiffPageSeries) S)
      as [(a & _ & [])|E']; congruence. }
  destruct (@add_scene_dimension_spec tiff S Hne) as (b & Hb & Hiff).
  assert (Hrun : _get_tiff_properties DefaultOrder Scene ns tiff S =
                 if b then
                   Returns {| props_dims := Scene :: single_dims;
                              props_shape := length (series tiff) :: single_shape;
                              props_dtype := page_dtype page0 |}
                 else
                   Returns {| props_dims := single_dims;
                              props_shape := single_shape;
                              props_dtype := page_dtype page0 |}).
  { unfold _get_tiff_properties. rewrite Hscene, Hpage. cbn [obind].
    rewrite Hdims, Hb. cbn [obind]. destruct b; reflexivity. }
  split; intros H; rewrite Hrun.
  - apply Hiff in H. rewrite H. reflexivity.
  - destruct b; [|reflexivity]. exfalso. apply H, Hiff. reflexivity.
Qed.

(** * The cache *)

Lemma call_cached (ns : Namespace) (props : TiffProperties) (a : accessor) (r : TiffReader) :
  cached props r -> call DefaultOrder Scene ns a r = (r, Returns (field_of props a)).
Proof.
  intros (Hd & Hs & Ht).
  destruct a; simpl; unfold dims, shape, dtype_of, accessor_body;
    rewrite ?Hd, ?Hs, ?Ht; reflexivity.
Qed.

Lemma run_cached (ns : Namespace) (props : TiffProperties) (calls : list accessor) :
  forall r, cached props r ->
  run DefaultOrder Scene ns calls r =
  (r, map (fun a => Returns (field_of props a)) calls).
Proof.
  induction calls as [|a calls IH]; intros r Hr; simpl; [reflexivity|].
  rewrite (call_cached ns a Hr), (IH _ Hr). reflexivity.
Qed.

Lemma first_call (ns : Namespace) (props : TiffProperties) (a : accessor)
      (tiff : TiffFile) (S : Z) :
  _get_tiff_properties DefaultOrder Scene ns tiff S = Returns props ->
  exists r, call DefaultOrder Scene ns a (TiffReader_init tiff S) =
            (r, Returns (field_of props a)) /\
            cached props r /\ introspections r = 1.
Proof.
  intros H.
  destruct a; simpl; unfold dims, shape, dtype_of, accessor_body, populate; simpl;
    rewrite H; eexists; (split; [reflexivity|]); split; try reflexivity;
      repeat split.
Qed.

(** C9: on a reader whose file can be introspected, any non-empty sequence
    of calls of [dims], [shape] and [dtype] returns at each call the
    corresponding field of one properties record, and
    [_get_tiff_properties] is called once. *)
Theorem accessors_idempotent (ns : Namespace) (tiff : TiffFile) (S : Z)
        (props : TiffProperties) (calls : list accessor) :
  _get_tiff_properties DefaultOrder Scene ns tiff S = Returns props ->
  calls <> [] ->
  exists r,
    run DefaultOrder Scene ns calls (TiffReader_init tiff S) =
    (r, map (fun a => Returns (field_of props a)) calls) /\
    introspections r = 1 /\
    cached props r.
Proof.
  intros Hprops Hne. destruct calls as [|a calls]; [congruence|].
  destruct (first_call ns a _ _ Hprops) as (r & Hcall & Hcached & Hcount).
  exists r. cbn [run map]. rewrite Hcall, (run_cached ns calls Hcached).
  auto.
Qed.

End ResolverFacts.

(** * The sniffer *)

Lemma is_this_type_unknown_marker (b : list byte) :
  endianness_known (BufferReader_enter b) = false -> _is_this_type b = Returns false.
Proof.
  intros H. unfold _is_this_type. rewrite H. reflexivity.
Qed.

Lemma is_this_type_classic (b : list byte) (off : Z) :
  endianness_known (BufferReader_enter b) = true ->
  uint_at b 2 2 = Some 42%Z ->
  uint_at b 4 4 = Some off ->
  _is_this_type b = Returns (negb (off =? 0)%Z).
Proof.
  intros Hend Hmagic Hoff. unfold _is_this_type. rewrite Hend. simpl negb. cbv iota.
  change (BufferReader_enter b) with (at_pos b 2).
  unfold read_uint16, read_uint32. rewrite (@bind_read_uint _ _ _ _ _ _ Hmagic).
  change (2 + Z.of_nat 2)%Z with 4%Z.
  change (42 =? 42)%Z with true. cbv iota.
  rewrite bind_assoc, (@bind_read_uint _ _ _ _ _ _ Hoff).
  destruct (off =? 0)%Z; reflexivity.
Qed.

Lemma is_this_type_big (b : list byte) (size reserved off : Z) :
  endianness_known (BufferReader_enter b) = true ->
  uint_at b 2 2 = Some 43%Z ->
  uint_at b 2 4 = Some size ->
  uint_at b 2 6 = Some reserved ->
  uint_at b 8 8 = Some off ->
  _is_this_type b =
  Returns ((size =? 8)%Z && (reserved =? 0)%Z && negb (off =? 0)%Z).
Proof.
  intros Hend Hmagic Hsize Hres Hoff.
  unfold _is_this_type. rewrite Hend. simpl negb. cbv iota.
  change (BufferReader_enter b) with (at_pos b 2).
  unfold read_uint16, read_uint64. rewrite (@bind_read_uint _ _ _ _ _ _ Hmagic).
  change (2 + Z.of_nat 2)%Z with 4%Z.
  change (43 =? 42)%Z with false. cbv iota. rewrite bind_ret. cbv iota beta.
  change (43 =? 43)%Z with true. cbv iota.
  rewrite bind_assoc, (@bind_read_uint _ _ _ _ _ _ Hsize).
  change (4 + Z.of_nat 2)%Z with 6%Z.
  destruct (size =? 8)%Z; [|reflexivity]. simpl negb. cbv iota.
  rewrite bind_assoc, (@bind_read_uint _ _ _ _ _ _ Hres).
  change (6 + Z.of_nat 2)%Z with 8%Z.
  destruct (reserved =? 0)%Z; [|reflexivity]. simpl negb. cbv iota.
  rewrite bind_assoc, (@bind_read_uint _ _ _ _ _ _ Hoff).
  destruct (off =? 0)%Z; reflexivity.
Qed.

(** Any magic other than 42 and 43 behind a known marker is accepted: both
    [if magic == ...] blocks are skipped and the final [return True] is
    reached. *)
Lemma is_this_type_other_magic (b : list byte) (magic : Z) :
  endianness_known (BufferReader_enter b) = true ->
  uint_at b 2 2 = Some magic ->
  magic <> 42%Z -> magic <> 43%Z ->
  _is_this_type b = Returns true.
Proof.
  intros Hend Hmagic H42 H43. unfold _is_this_type. rewrite Hend. simpl negb. cbv iota.
  change (BufferReader_enter b) with (at_pos b 2).
  unfold read_uint16. rewrite (@bind_read_uint _ _ _ _ _ _ Hmagic).
  apply Z.eqb_neq in H42, H43. rewrite H42, H43. reflexivity.
Qed.

(** C1: the stream [II], magic 7, has a valid byte-order marker and a magic
    that is neither 42 nor 43, and [_is_this_type] answers [True] on it. *)
Theorem is_this_type_accepts_magic_7 :
  endianness_known (BufferReader_enter other_magic_stream) = true /\
  uint_at other_magic_stream 2 2 = Some 7%Z /\
  _is_this_type other_magic_stream = Returns true.
Proof. repeat split. Qed.

(** * The description extractor on containers *)

Lemma no_description_first (ifds : list (list Entry)) :
  no_description ifds -> first_description ifds = None.
Proof.
  unfold no_description, first_description.
  induction 1 as [|es ifds Hes _ IH]; [reflexivity|].
  simpl concat. rewrite find_app_first, IH.
  induction Hes as [|en es Hen _ IHes]; [reflexivity|].
  simpl. unfold is_description at 1.
  apply Z.eqb_neq in Hen. rewrite Hen. exact IHes.
Qed.

Lemma stream_read_bytes_at (b : list byte) (o : Z) (L : nat) (bs : list byte) :
  bytes_at b o L = Some bs -> stream_read b o (Z.of_nat L) = bs.
Proof.
  unfold bytes_at, stream_read.
  destruct ((0 <=? o) && (o + Z.of_nat L <=? Z.of_nat (length b)))%Z%bool eqn:E;
    [|discriminate].
  apply andb_prop in E. destruct E as [H0 Hl].
  apply Z.leb_le in H0, Hl. intros H. injection H as <-.
  destruct (Z.leb_spec (Z.of_nat (length b)) o) as [Hend | Hin].
  - assert (L = 0) as -> by lia. reflexivity.
  - destruct (Z.ltb_spec (Z.of_nat L) 0) as [Hneg | _]; [lia|].
    destruct (Z.leb_spec (Z.of_nat (length (skipn (Z.to_nat o) b))) (Z.of_nat L))
      as [Hshort | Hlong].
    + rewrite firstn_all2 by lia. reflexivity.
    + rewrite Nat2Z.id. reflexivity.
Qed.

Lemma bytes_at_within (b : list byte) (o : Z) (L : nat) (bs : list byte) :
  bytes_at b o L = Some bs ->
  (0 <= o)%Z /\ (o + Z.of_nat L <= Z.of_nat (length b))%Z.
Proof.
  unfold bytes_at.
  destruct ((0 <=? o) && (o + Z.of_nat L <=? Z.of_nat (length b)))%Z%bool eqn:E;
    [|discriminate].
  apply andb_prop in E. destruct E as [H0 Hl]. apply Z.leb_le in H0, Hl. auto.
Qed.

Lemma read_all_accepted (b : list byte) : too_large b (-1) = false.
Proof. apply within_stream. lia. Qed.

Lemma stream_read_to_end (b : list byte) (o : Z) :
  stream_read b o (-1) = skipn (Z.to_nat o) b.
Proof.
  unfold stream_read.
  destruct (Z.leb_spec (Z.of_nat (length b)) o) as [Hend | Hin].
  - symmetry. apply skipn_all2. lia.
  - reflexivity.
Qed.

(** C2, as amended: on a container whose chain of directories has no entry
    with tag 270 (an empty chain included), [get_image_description] returns
    [None] once the loop is given more rounds than there are directories; no
    exception is raised, and [metadata] turns the [None] into the empty
    string. *)
Theorem description_absent_returns_None
        (b : list byte) (v : variant) (ifds : list (list Entry)) (fuel : nat) :
  container b v ifds ->
  no_description ifds ->
  length ifds < fuel ->
  get_image_description fuel b = Returns None /\
  metadata_bytes fuel b = Returns [].
Proof.
  intros Hc Hno Hfuel.
  assert (H : get_image_description fuel b = Returns None).
  { rewrite (get_image_description_container Hc Hfuel).
    unfold description_of. rewrite (no_description_first Hno). reflexivity. }
  split; [exact H|]. unfold metadata_bytes. rewrite H. reflexivity.
Qed.

(** C5: on a container whose first entry with tag 270 stores the count
    [L + 1] and a non-zero offset at which the stream holds [L] bytes,
    [get_image_description] returns exactly these [L] bytes. *)
Theorem description_round_trip
        (b : list byte) (v : variant) (ifds : list (list Entry)) (fuel : nat)
        (en : Entry) (L : nat) (description : list byte) :
  container b v ifds ->
  first_description ifds = Some en ->
  count en = (Z.of_nat L + 1)%Z ->
  value_offset en <> 0%Z ->
  bytes_at b (value_offset en) L = Some description ->
  length ifds < fuel ->
  get_image_description fuel b = Returns (Some description) /\
  length description = L.
Proof.
  intros Hc Hfirst Hcount Hoff Hbytes Hfuel.
  rewrite (get_image_description_container Hc Hfuel).
  unfold description_of. rewrite Hfirst.
  apply Z.eqb_neq in Hoff. rewrite Hoff.
  replace (count en - 1)%Z with (Z.of_nat L) by lia.
  destruct (bytes_at_within _ _ _ Hbytes) as [H0 Hl].
  rewrite !within_stream by lia.
  rewrite (stream_read_bytes_at _ _ _ Hbytes). split; [reflexivity|].
  unfold bytes_at in Hbytes.
  destruct ((0 <=? _) && (_ <=? _))%Z%bool; [|discriminate].
  injection Hbytes as <-. rewrite length_firstn, length_skipn. lia.
Qed.

(** C10, as amended: on a container whose first entry with tag 270 stores the
    count 0 and an offset that is not 0 and does not lie beyond the end of the
    stream, [get_image_description] reads with the length -1 and returns
    every byte of the stream from that offset on. *)
Theorem description_count_zero_reads_to_end
        (b : list byte) (v : variant) (ifds : list (list Entry)) (fuel : nat)
        (en : Entry) :
  container b v ifds ->
  first_description ifds = Some en ->
  count en = 0%Z ->
  value_offset en <> 0%Z ->
  (value_offset en <= Z.of_nat (length b))%Z ->
  length ifds < fuel ->
  snd (found_fields en) = value_offset en /\
  fst (found_fields en) = (-1)%Z /\
  get_image_description fuel b =
  Returns (Some (skipn (Z.to_nat (value_offset en)) b)).
Proof.
  intros Hc Hfirst Hcount Hoff Hin Hfuel.
  split; [reflexivity|]. split; [unfold found_fields; simpl; lia|].
  rewrite (get_image_description_container Hc Hfuel).
  unfold description_of. rewrite Hfirst.
  apply Z.eqb_neq in Hoff. rewrite Hoff, Hcount.
  change (0 - 1)%Z with (-1)%Z.
  rewrite (@within_stream b (value_offset en) Hin), read_all_accepted, stream_read_to_end.
  reflexivity.
Qed.

(** C8: for a file with one scene made of one 100 by 100 page,
    [_read_delayed] returns a lazy array of declared shape (100, 100), and
    forcing it gives the array that [_read_immediate] returns, the decoded
    page. *)
Theorem read_lazy_single_page_100 (tiff : TiffFile) (S : Z) (page : TiffPage) :
  single_page_2d_container tiff page 100 100 ->
  exists data,
    _read_delayed tiff S = Returns data /\
    da_shape data = Some [100; 100] /\
    compute tiff data = _read_immediate tiff S /\
    _read_immediate tiff S = Returns (page_array page).
Proof.
  intros H. destruct (read_single_page S H) as (data & Hread & Hshape & Hforce & Himm).
  exists data. rewrite Himm. auto.
Qed.

(** * The sample inputs are what they are said to be *)

Ltac layout_header := repeat split.

Ltac layout_chain :=
  repeat first
    [ apply chain_end; vm_compute; reflexivity
    | eapply chain_next;
      [ vm_compute; reflexivity
      | discriminate
      | vm_compute; reflexivity
      | simpl entries_at; repeat split; vm_compute; reflexivity
      | ] ].

Lemma classic_abc_container : container classic_abc Classic classic_abc_ifds.
Proof. split; [layout_header | layout_chain]. Qed.

Lemma classic_plain_container : container classic_plain Classic [[image_width_entry]].
Proof. split; [layout_header | layout_chain]. Qed.

Lemma big_plain_container : container big_plain Big [[image_width_entry]].
Proof. split; [layout_header | layout_chain]. Qed.

Lemma classic_count0_container :
  container classic_count0 Classic classic_count0_ifds.
Proof. split; [layout_header | layout_chain]. Qed.

Lemma classic_count0_offset0_container :
  container classic_count0_offset0 Classic classic_count0_offset0_ifds.
Proof. split; [layout_header | layout_chain]. Qed.

Lemma big_count0_far_container :
  container big_count0_far Big big_count0_far_ifds.
Proof. split; [layout_header | layout_chain]. Qed.

Lemma image_width_only_no_description : no_description [[image_width_entry]].
Proof. repeat constructor. discriminate. Qed.

Lemma three_scenes_same_shape : all_same_shape three_scenes.
Proof.
  intros a b Ha Hb. simpl in Ha, Hb.
  repeat match goal with
         | H : _ \/ _ |- _ => destruct H as [<- | H]
         | H : False |- _ => destruct H
         end; reflexivity.
Qed.

Lemma two_scenes_read : _read_delayed two_scenes 0 = Returns two_scenes_lazy.
Proof. vm_compute. reflexivity. Qed.

Lemma single_page_100_container :
  single_page_2d_container single_page_100 (sample_page 100 100 7) 100 100.
Proof.
  eexists. repeat split.
Qed.

(** The module itself binds neither [self] nor [single_scene_dims]: called
    from [_get_tiff_properties], [_guess_tiff_dims] stops at the first of
    them with [NameError], whatever the file. *)
Lemma guess_tiff_dims_unbound_names (DefaultOrder : list ascii) (tiff : TiffFile) (S : Z) :
  _guess_tiff_dims DefaultOrder module_namespace tiff S = Raises NameError.
Proof. reflexivity. Qed.

(** * Witnesses and counterexamples *)

(** C2 on the BigTIFF sample: one directory, no description. *)
Lemma description_absent_returns_None_witness :
  get_image_description 2 big_plain = Returns None /\
  metadata_bytes 2 big_plain = Returns [].
Proof.
  apply (@description_absent_returns_None big_plain Big [[image_width_entry]] 2).
  - exact big_plain_container.
  - exact image_width_only_no_description.
  - simpl. lia.
Defined.

(** C2 as stated fails on the classic sample without description: whatever
    the bound on the loop, the extractor does not return the empty byte
    sequence there; it returns [None]. *)
Lemma description_absent_not_empty_bytes :
  container classic_plain Classic [[image_width_entry]] /\
  no_description [[image_width_entry]] /\
  get_image_description 2 classic_plain = Returns None /\
  ~ (exists fuel, get_image_description fuel classic_plain = Returns (Some [])).
Proof.
  split; [exact classic_plain_container|].
  split; [exact image_width_only_no_description|].
  split; [reflexivity|].
  intros [fuel H]. destruct fuel as [|[|fuel]]; discriminate H.
Qed.

(** C5 on the classic sample: the text [abc] comes back without its
    terminator. *)
Lemma description_round_trip_witness :
  get_image_description 2 classic_abc = Returns (Some [x61; x62; x63]) /\
  length [x61; x62; x63] = 3.
Proof.
  apply (@description_round_trip classic_abc Classic classic_abc_ifds 2
           {| tag := 270; typ := 2; count := 4; value_offset := 38 |} 3).
  - exact classic_abc_container.
  - reflexivity.
  - reflexivity.
  - discriminate.
  - reflexivity.
  - simpl. lia.
Defined.

(** C10 on the sample with count 0 and offset 26: the three bytes that end
    the stream are returned. *)
Lemma description_count_zero_reads_to_end_witness :
  26%Z = 26%Z /\ (0 - 1)%Z = (-1)%Z /\
  get_image_description 2 classic_count0 = Returns (Some [x68; x69; x21]).
Proof.
  apply (@description_count_zero_reads_to_end classic_count0 Classic classic_count0_ifds 2
           {| tag := 270; typ := 2; count := 0; value_offset := 26 |}).
  - exact classic_count0_container.
  - reflexivity.
  - reflexivity.
  - discriminate.
  - simpl. lia.
  - simpl. lia.
Defined.

(** C10 as stated fails when the stored offset is 0 as well: the extractor
    takes the branch of [description_offset == 0], where [bytearray("")]
    raises, and never returns the bytes from offset 0 to the end. It also
    fails when the stored offset is 2^63, which the stream refuses to seek
    to: no byte sequence, not even the empty one, is returned. *)
Lemma description_count_zero_offset_zero :
  container classic_count0_offset0 Classic classic_count0_offset0_ifds /\
  first_description classic_count0_offset0_ifds =
    Some {| tag := 270; typ := 2; count := 0; value_offset := 0 |} /\
  get_image_description 2 classic_count0_offset0 = Raises TypeError /\
  ~ (exists fuel,
       get_image_description fuel classic_count0_offset0 =
       Returns (Some (skipn 0 classic_count0_offset0))) /\
  container big_count0_far Big big_count0_far_ifds /\
  first_description big_count0_far_ifds =
    Some {| tag := 270; typ := 2; count := 0; value_offset := 2 ^ 63 |} /\
  ~ (exists fuel, get_image_description fuel big_count0_far = Returns (Some [])).
Proof.
  split; [exact classic_count0_offset0_container|].
  split; [reflexivity|]. split; [reflexivity|].
  split; [intros [fuel H]; destruct fuel as [|[|fuel]]; discriminate H|].
  split; [exact big_count0_far_container|].
  split; [reflexivity|].
  intros [fuel H]. destruct fuel as [|[|fuel]]; discriminate H.
Qed.

(** C4 on the file without scenes and on the file whose scene has no page. *)
Lemma read_delayed_empty_witness :
  _read_delayed no_scenes 0 = Raises IndexError /\
  _read_delayed no_pages 0 = Raises IndexError.
Proof.
  split.
  - apply (@read_delayed_empty no_scenes 0). left. reflexivity.
  - apply (@read_delayed_empty no_pages 0). right.
    constructor; [reflexivity | constructor].
Defined.

(** C4 as stated fails: neither on the file without scenes nor on the file
    whose scene has no page is the failure [EmptyContainerError]. *)
Lemma read_delayed_empty_not_EmptyContainerError :
  series no_scenes = [] /\
  _read_delayed no_scenes 0 <> Raises EmptyContainerError /\
  pages no_pages = [] /\
  _read_delayed no_pages 0 <> Raises EmptyContainerError.
Proof.
  repeat split; discriminate.
Qed.

(** C7 on two scenes of three pages: the fifth position of the enumeration,
    (1, 1, 0, 0), holds the node of scene 1 and page 4 // 2 = 2. *)
Lemma lazy_page_index_witness :
  exists node,
    grid_get (grid_of two_scenes_lazy) [1; 1; 0; 0] = Some node /\
    node_scene node = 1 /\
    node_page node = 2.
Proof.
  apply (@lazy_page_index two_scenes 0 two_scenes_lazy 4 [1; 1; 0; 0]).
  - exact two_scenes_read.
  - reflexivity.
Defined.

(** C8 on the sample file. *)
Lemma read_lazy_single_page_100_witness :
  exists data,
    _read_delayed single_page_100 0 = Returns data /\
    da_shape data = Some [100; 100] /\
    compute single_page_100 data = _read_immediate single_page_100 0 /\
    _read_immediate single_page_100 0 = Returns (plane 100 100 7).
Proof.
  apply (@read_lazy_single_page_100 single_page_100 0 (sample_page 100 100 7)).
  exact single_page_100_container.
Defined.

Lemma sample_order_Z : Forall (fun d => In d sample_order) ["Z"%char].
Proof. constructor; [apply mem_In; reflexivity | constructor]. Qed.

Lemma sample_order_X : Forall (fun d => In d sample_order) ["X"%char].
Proof. constructor; [apply mem_In; reflexivity | constructor]. Qed.

Lemma sample_order_not_Q : ~ In "Q"%char sample_order.
Proof. apply mem_not_In. reflexivity. Qed.

(** The labels ZQX with the guess ZYX, both free names bound: Q becomes Y,
    the first guessed label that is not used yet, and the result ZYX has no
    duplicate. *)
Lemma guess_tiff_dims_one_unknown_witness :
  _guess_tiff_dims sample_order namespace_ZQX scene_ZQX 0 =
    Returns (list_ascii_of_string "ZYX") /\
  length (list_ascii_of_string "ZYX") = length (list_ascii_of_string "ZQX") /\
  NoDup (list_ascii_of_string "ZYX").
Proof.
  destruct (@guess_tiff_dims_one_unknown sample_order namespace_ZQX scene_ZQX 0
              sample_guess_dim_order (sample_scene "ZQX" 3 2 2)
              ["Z"%char] ["X"%char] "Q"%char
              eq_refl eq_refl eq_refl sample_order_Z sample_order_X sample_order_not_Q)
    as (Hrun & Hlen & _ & Hnodup).
  split; [exact Hrun|]. split; [exact Hlen|].
  apply Hnodup.
  - constructor; [apply mem_not_In; reflexivity|].
    constructor; [apply mem_not_In; reflexivity | constructor].
  - apply mem_not_In. reflexivity.
Defined.

(** The labels QY, whose only unrecognized symbol is Q, in a namespace that
    binds the two free names: with the guess YX the loop replaces Q by Y,
    nothing having been used yet, and then keeps the declared Y, so the
    result YY has a duplicate. In the module's own namespace the call raises
    [NameError]. *)
Theorem guess_tiff_dims_duplicate_label :
  ~ In "Q"%char sample_order /\
  In "Y"%char sample_order /\
  _guess_tiff_dims sample_order namespace_QY scene_QY 0 =
    Returns (list_ascii_of_string "YY") /\
  ~ NoDup (list_ascii_of_string "YY") /\
  _get_tiff_properties sample_order "S"%char module_namespace scene_QY 0 =
    Raises NameError.
Proof.
  split; [exact sample_order_not_Q|].
  split; [apply mem_In; reflexivity|].
  split; [reflexivity|].
  split; [|reflexivity].
  intros H. inversion H as [|? ? Hin _]. apply Hin. left. reflexivity.
Qed.

(** Three scenes of shape (5, 100, 100) labelled ZYX: the labels are SZYX
    and the shape is (3, 5, 100, 100). *)
Lemma tiff_properties_recognized_labels_witness :
  _get_tiff_properties sample_order "S"%char module_namespace three_scenes 0 =
  Returns {| props_dims := list_ascii_of_string "SZYX";
             props_shape := [3; 5; 100; 100];
             props_dtype := uint16 |}.
Proof.
  apply (proj1 (@tiff_properties_recognized_labels sample_order "S"%char module_namespace
                  three_scenes 0 (sample_scene "ZYX" 5 100 100) (sample_page 100 100 0)
                  eq_refl eq_refl eq_refl)).
  split.
  - simpl. lia.
  - exact three_scenes_same_shape.
Defined.

Lemma three_scenes_ZQX_same_shape : all_same_shape three_scenes_ZQX.
Proof.
  intros a b Ha Hb. simpl in Ha, Hb.
  repeat match goal with
         | H : _ \/ _ |- _ => destruct H as [<- | H]
         | H : False |- _ => destruct H
         end; reflexivity.
Qed.

(** C3: the labels ZQX have exactly one symbol outside [DefaultOrder], Q. On
    a file whose scene declares them, [_guess_tiff_dims] as the module has
    it returns no label string: it raises [NameError], and so does
    [_get_tiff_properties], its only caller. *)
Theorem guess_tiff_dims_one_unknown_raises :
  py_index (series scene_ZQX) 0 = Returns (sample_scene "ZQX" 3 2 2) /\
  axes (scene_pages (sample_scene "ZQX" 3 2 2)) = ["Z"; "Q"; "X"]%char /\
  In "Z"%char sample_order /\ ~ In "Q"%char sample_order /\ In "X"%char sample_order /\
  _guess_tiff_dims sample_order module_namespace scene_ZQX 0 = Raises NameError /\
  _get_tiff_properties sample_order "S"%char module_namespace scene_ZQX 0 =
    Raises NameError.
Proof.
  split; [reflexivity|]. split; [reflexivity|].
  split; [apply mem_In; reflexivity|].
  split; [exact sample_order_not_Q|].
  split; [apply mem_In; reflexivity|].
  split; reflexivity.
Qed.

(** C6: three scenes that share the shape (5, 100, 100) and declare the
    labels ZQX. [_get_tiff_properties] returns neither the labels with the
    scene label in front nor the shape (3, 5, 100, 100): it raises
    [NameError], at the call of [_guess_tiff_dims]. *)
Theorem tiff_properties_scene_axis_raises :
  1 < length (series three_scenes_ZQX) /\
  all_same_shape three_scenes_ZQX /\
  py_index (series three_scenes_ZQX) 0 = Returns (sample_scene "ZQX" 5 100 100) /\
  pages_shape (scene_pages (sample_scene "ZQX" 5 100 100)) = [5; 100; 100] /\
  _get_tiff_properties sample_order "S"%char module_namespace three_scenes_ZQX 0 =
    Raises NameError.
Proof.
  split; [simpl; lia|].
  split; [exact three_scenes_ZQX_same_shape|].
  split; [reflexivity|]. split; [reflexivity|].
  reflexivity.
Qed.

(** C9 on the same file: four accesses, one introspection. *)
Lemma accessors_idempotent_witness :
  exists r,
    run sample_order "S"%char module_namespace [Shape; Dims; Dtype; Dims]
        (TiffReader_init three_scenes 0) =
    (r, [Returns (VShape [3; 5; 100; 100]);
         Returns (VDims (list_ascii_of_string "SZYX"));
         Returns (VDtype uint16);
         Returns (VDims (list_ascii_of_string "SZYX"))]) /\
    introspections r = 1 /\
    cached {| props_dims := list_ascii_of_string "SZYX";
              props_shape := [3; 5; 100; 100];
              props_dtype := uint16 |} r.
Proof.
  apply (@accessors_idempotent sample_order "S"%char module_namespace three_scenes 0
           {| props_dims := list_ascii_of_string "SZYX";
              props_shape := [3; 5; 100; 100];
              props_dtype := uint16 |}
           [Shape; Dims; Dtype; Dims]).
  - vm_compute. reflexivity.
  - discriminate.
Defined.

(** * Beyond the stated properties *)

(** * More on the sniffer and the extractor *)

Lemma endianness_unknown (b : list byte) :
  firstn 2 b <> INTEL_ENDIAN -> firstn 2 b <> MOTOROLA_ENDIAN ->
  endianness_known (BufferReader_enter b) = false.
Proof.
  intros HI HM. unfold endianness_known, BufferReader_enter. cbn [endianness].
  unfold bytes_eqb.
  destruct (list_eq_dec byte_eq_dec (firstn 2 b) INTEL_ENDIAN); [contradiction|].
  destruct (list_eq_dec byte_eq_dec (firstn 2 b) MOTOROLA_ENDIAN); [contradiction|].
  reflexivity.
Qed.

(** A stream that does not start with [II] or [MM], the empty stream
    included, is not this type, has no description, and its metadata is the
    empty string; nothing is read behind the marker. *)
Theorem unknown_marker_not_tiff (b : list byte) (fuel : nat) :
  firstn 2 b <> INTEL_ENDIAN ->
  firstn 2 b <> MOTOROLA_ENDIAN ->
  _is_this_type b = Returns false /\
  get_image_description fuel b = Returns None /\
  metadata_bytes fuel b = Returns [].
Proof.
  intros HI HM. pose proof (@endianness_unknown b HI HM) as H.
  assert (Hd : get_image_description fuel b = Returns None).
  { unfold get_image_description. rewrite H. reflexivity. }
  split; [apply is_this_type_unknown_marker; exact H|].
  split; [exact Hd|]. unfold metadata_bytes. rewrite Hd. reflexivity.
Qed.

(** Behind a well-formed header of either variant, [_is_this_type] answers
    [True] exactly when the first directory offset is not 0. *)
Theorem sniffer_valid_header (b : list byte) (v : variant) (off : Z) :
  tiff_header b v ->
  uint_at b (offset_width v) (first_ifd_field v) = Some off ->
  _is_this_type b = Returns (negb (off =? 0)%Z).
Proof.
  intros (Hend & Hmagic & Hbig) Hoff. destruct v.
  - exact (@is_this_type_classic b off Hend Hmagic Hoff).
  - destruct Hbig as [H8 H0].
    rewrite (@is_this_type_big b _ _ off Hend Hmagic H8 H0 Hoff). reflexivity.
Qed.

(** With magic 43, an offset size other than 8, or a reserved field other
    than 0, makes [_is_this_type] answer [False] and
    [get_image_description] answer [None], whatever follows. *)
Theorem sniffer_big_rejects_early (b : list byte) (size : Z) :
  endianness_known (BufferReader_enter b) = true ->
  uint_at b 2 2 = Some 43%Z ->
  uint_at b 2 4 = Some size ->
  (size <> 8%Z \/ exists reserved, uint_at b 2 6 = Some reserved /\ reserved <> 0%Z) ->
  _is_this_type b = Returns false /\
  forall fuel, get_image_description fuel b = Returns None.
Proof.
  intros Hend Hmagic Hsize Hbad.
  split; [|intros fuel].
  - unfold _is_this_type. rewrite Hend. simpl negb. cbv iota.
    change (BufferReader_enter b) with (at_pos b 2).
    unfold read_uint16, read_uint64. rewrite (@bind_read_uint _ _ _ _ _ _ Hmagic).
    change (2 + Z.of_nat 2)%Z with 4%Z.
    change (43 =? 42)%Z with false. cbv iota. rewrite bind_ret. cbv iota beta.
    change (43 =? 43)%Z with true. cbv iota.
    rewrite bind_assoc, (@bind_read_uint _ _ _ _ _ _ Hsize).
    change (4 + Z.of_nat 2)%Z with 6%Z.
    destruct (Z.eqb_spec size 8) as [-> | Hne]; [|reflexivity].
    destruct Hbad as [Hbad | (reserved & Hres & Hnz)]; [congruence|].
    simpl negb. cbv iota.
    rewrite bind_assoc, (@bind_read_uint _ _ _ _ _ _ Hres).
    apply Z.eqb_neq in Hnz. rewrite Hnz. reflexivity.
  - unfold get_image_description. rewrite Hend. simpl negb. cbv iota.
    change (BufferReader_enter b) with (at_pos b 2).
    unfold read_uint16. rewrite (@bind_read_uint _ _ _ _ _ _ Hmagic).
    change (2 + Z.of_nat 2)%Z with 4%Z.
    change (43 =? 42)%Z with false. cbv iota. rewrite bind_ret. cbv iota beta.
    change (43 =? 43)%Z with true. cbv iota.
    rewrite bind_assoc, (@bind_read_uint _ _ _ _ _ _ Hsize).
    change (4 + Z.of_nat 2)%Z with 6%Z.
    destruct (Z.eqb_spec size 8) as [-> | Hne]; [|reflexivity].
    destruct Hbad as [Hbad | (reserved & Hres & Hnz)]; [congruence|].
    simpl negb. cbv iota.
    rewrite bind_assoc, (@bind_read_uint _ _ _ _ _ _ Hres).
    apply Z.eqb_neq in Hnz. rewrite Hnz. reflexivity.
Qed.

(** The sniffer agrees with the layout: a container is this type exactly
    when its chain has at least one directory. *)
Theorem container_is_recognized (b : list byte) (v : variant) (ifds : list (list Entry)) :
  container b v ifds ->
  _is_this_type b = Returns (match ifds with [] => false | _ :: _ => true end).
Proof.
  intros [(Hend & Hmagic & Hbig) Hchain].
  assert (Hoff : exists off,
             uint_at b (offset_width v) (first_ifd_field v) = Some off /\
             (off =? 0)%Z = match ifds with [] => true | _ :: _ => false end).
  { inversion Hchain as [p H0 | p off es rest H0 Hnz]; subst.
    - exists 0%Z. split; [exact H0 | reflexivity].
    - exists off. split; [exact H0 | apply Z.eqb_neq; exact Hnz]. }
  destruct Hoff as (off & Hoff & Hzero).
  destruct v.
  - rewrite (@is_this_type_classic b off Hend Hmagic Hoff), Hzero. destruct ifds; reflexivity.
  - destruct Hbig as [H8 H0].
    rewrite (@is_this_type_big b _ _ off Hend Hmagic H8 H0 Hoff), Hzero. destruct ifds; reflexivity.
Qed.

(** Behind a known marker, a magic other than 42 and 43 leaves
    [description_offset] at 0, and the call [bytearray("")] of that branch
    raises [TypeError]. *)
Theorem description_other_magic_raises (b : list byte) (magic : Z) (fuel : nat) :
  endianness_known (BufferReader_enter b) = true ->
  uint_at b 2 2 = Some magic ->
  magic <> 42%Z -> magic <> 43%Z ->
  get_image_description fuel b = Raises TypeError.
Proof.
  intros Hend Hmagic H42 H43. unfold get_image_description.
  rewrite Hend. simpl negb. cbv iota.
  change (BufferReader_enter b) with (at_pos b 2).
  unfold read_uint16. rewrite (@bind_read_uint _ _ _ _ _ _ Hmagic).
  apply Z.eqb_neq in H42, H43. rewrite H42, H43. reflexivity.
Qed.

(** A description entry that stores the offset 0 is taken for a missing
    one, whatever its count, and the same [bytearray("")] raises. *)
Theorem description_offset_zero_raises
        (b : list byte) (v : variant) (ifds : list (list Entry)) (fuel : nat) (en : Entry) :
  container b v ifds ->
  first_description ifds = Some en ->
  value_offset en = 0%Z ->
  length ifds < fuel ->
  get_image_description fuel b = Raises TypeError.
Proof.
  intros Hc Hfirst Hoff Hfuel.
  rewrite (@get_image_description_container b v ifds Hc fuel Hfuel).
  unfold description_of. rewrite Hfirst, Hoff. reflexivity.
Qed.

Lemma stream_read_length (b : list byte) (o n : Z) :
  (0 <= o)%Z -> (0 <= n)%Z ->
  Z.of_nat (length (stream_read b o n)) =
  Z.min n (Z.max 0 (Z.of_nat (length b) - o)).
Proof.
  intros Ho Hn. unfold stream_read.
  destruct (Z.leb_spec (Z.of_nat (length b)) o) as [Hend | Hin]; [simpl; lia|].
  destruct (Z.ltb_spec n 0) as [Hneg | _]; [lia|].
  assert (Hrest : Z.of_nat (length (skipn (Z.to_nat o) b)) = (Z.of_nat (length b) - o)%Z).
  { rewrite length_skipn. lia. }
  destruct (Z.leb_spec (Z.of_nat (length (skipn (Z.to_nat o) b))) n) as [Hs | Hl].
  - lia.
  - rewrite length_firstn. lia.
Qed.

(** When the description entry lies in the stream (its offset is not beyond
    the end, and the announced length is no more than the length of the
    stream) but the stream ends before the announced length, the
    description is what is there: [count - 1] bytes or the rest of the
    stream from the offset, whichever is shorter. *)
Theorem description_is_clipped
        (b : list byte) (v : variant) (ifds : list (list Entry)) (fuel : nat) (en : Entry) :
  container b v ifds ->
  first_description ifds = Some en ->
  (1 <= count en)%Z ->
  (count en - 1 <= Z.of_nat (length b))%Z ->
  (0 < value_offset en)%Z ->
  (value_offset en <= Z.of_nat (length b))%Z ->
  length ifds < fuel ->
  exists description,
    get_image_description fuel b = Returns (Some description) /\
    Z.of_nat (length description) =
      Z.min (count en - 1) (Z.of_nat (length b) - value_offset en) /\
    description = firstn (length description) (skipn (Z.to_nat (value_offset en)) b).
Proof.
  intros Hc Hfirst Hcount Hsize Hoff Hin Hfuel.
  rewrite (@get_image_description_container b v ifds Hc fuel Hfuel).
  unfold description_of. rewrite Hfirst.
  destruct (Z.eqb_spec (value_offset en) 0) as [E | _]; [lia|].
  rewrite (@within_stream b (value_offset en) Hin).
  rewrite (@within_stream b (count en - 1) Hsize).
  eexists. split; [reflexivity|]. split.
  - rewrite stream_read_length by lia. lia.
  - unfold stream_read.
    destruct (Z.leb_spec (Z.of_nat (length b)) (value_offset en)); [reflexivity|].
    destruct (Z.ltb_spec (count en - 1) 0); [lia|].
    destruct (Z.leb_spec (Z.of_nat (length (skipn (Z.to_nat (value_offset en)) b)))
                         (count en - 1)).
    + rewrite firstn_all. reflexivity.
    + rewrite length_firstn, Nat.min_l by lia.
      reflexivity.
Qed.

Lemma find_no_description (es : list Entry) :
  Forall (fun en => tag en <> 270%Z) es -> find is_description es = None.
Proof.
  induction 1 as [|en es Hen _ IH]; [reflexivity|].
  simpl. unfold is_description at 1. apply Z.eqb_neq in Hen. rewrite Hen. exact IH.
Qed.

Section Cycle.
Variable b : list byte.
Variable v : variant.
Variable off : Z.
Variable es : list Entry.

Hypothesis off_nonzero : off <> 0%Z.
Hypothesis count_at_off : uint_at b (entries_width v) off = Some (Z.of_nat (length es)).
Hypothesis entries_at_off : entries_at b v (off + Z.of_nat (entries_width v)) es.
Hypothesis no_tag_270 : Forall (fun en => tag en <> 270%Z) es.
Hypothesis next_is_self :
  uint_at b (offset_width v)
          (off + Z.of_nat (entries_width v) + entry_size v * Z.of_nat (length es)) = Some off.

Lemma walk_ifds_cycle (fuel : nat) :
  forall p, uint_at b (offset_width v) p = Some off ->
            walk_ifds v fuel (at_pos b p) = OutOfFuel.
Proof.
  induction fuel as [|fuel IH]; intros p Hp; [reflexivity|].
  simpl walk_ifds. rewrite (@bind_read_uint _ _ _ _ _ _ Hp).
  pose proof off_nonzero as Hnz. apply Z.eqb_neq in Hnz. rewrite Hnz.
  rewrite bind_seek
    by (apply within_stream; exact (@uint_at_within _ _ _ _ count_at_off)).
  rewrite (@bind_read_uint _ _ _ _ _ _ count_at_off).
  rewrite Nat2Z.id.
  destruct (@scan_entries_layout b v es _ entries_at_off) as (p' & Hscan & Hp').
  unfold bind at 1. rewrite Hscan.
  rewrite (find_no_description no_tag_270) in *. simpl option_map.
  rewrite (Hp' eq_refl). apply IH. exact next_is_self.
Qed.

End Cycle.

(** A first directory without description whose next-directory offset is
    its own offset keeps the [while not found] loop running: no bound on the
    rounds is enough for the call to finish. *)
Theorem cyclic_chain_never_returns
        (b : list byte) (v : variant) (off : Z) (es : list Entry) (fuel : nat) :
  tiff_header b v ->
  uint_at b (offset_width v) (first_ifd_field v) = Some off ->
  off <> 0%Z ->
  uint_at b (entries_width v) off = Some (Z.of_nat (length es)) ->
  entries_at b v (off + Z.of_nat (entries_width v)) es ->
  Forall (fun en => tag en <> 270%Z) es ->
  uint_at b (offset_width v)
          (off + Z.of_nat (entries_width v) + entry_size v * Z.of_nat (length es)) = Some off ->
  get_image_description fuel b = OutOfFuel.
Proof.
  intros (Hend & Hmagic & Hbig) Hfirst Hnz Hcount Hes Hno Hself.
  pose proof (@walk_ifds_cycle b v off es Hnz Hcount Hes Hno Hself fuel _ Hfirst) as Hwalk.
  unfold get_image_description. rewrite Hend. simpl negb. cbv iota.
  change (BufferReader_enter b) with (at_pos b 2).
  unfold read_uint16. rewrite (@bind_read_uint _ _ _ _ _ _ Hmagic).
  change (2 + Z.of_nat 2)%Z with 4%Z.
  destruct v; simpl magic_of; simpl first_ifd_field in Hwalk.
  - change (42 =? 42)%Z with true. cbv iota.
    unfold bind at 1. rewrite Hwalk. reflexivity.
  - change (43 =? 42)%Z with false. cbv iota. rewrite bind_ret. cbv iota beta.
    change (43 =? 43)%Z with true. cbv iota.
    destruct Hbig as [H8 H0].
    rewrite bind_assoc. rewrite (@bind_read_uint _ _ _ _ _ _ H8).
    change (negb (8 =? 8)%Z) with false. cbv iota.
    change (4 + Z.of_nat 2)%Z with 6%Z.
    rewrite bind_assoc. rewrite (@bind_read_uint _ _ _ _ _ _ H0).
    change (negb (0 =? 0)%Z) with false. cbv iota.
    change (6 + Z.of_nat 2)%Z with 8%Z.
    unfold bind at 1. rewrite Hwalk. reflexivity.
Qed.

(** * Scene consistency and the eager reader *)

(** [_scene_shape_is_consistent] fails with [IndexError] on a file without
    scenes and otherwise tells whether all scenes have one shape; its
    argument [S] has no bearing on the answer. *)
Theorem scene_shape_is_consistent_cases (tiff : TiffFile) (S : Z) :
  (series tiff = [] -> _scene_shape_is_consistent tiff S = Raises IndexError) /\
  (series tiff <> [] ->
   (all_same_shape tiff -> _scene_shape_is_consistent tiff S = Returns true) /\
   (~ all_same_shape tiff -> _scene_shape_is_consistent tiff S = Returns false)).
Proof.
  split.
  - intros E. unfold _scene_shape_is_consistent. rewrite E. reflexivity.
  - intros Hne.
    destruct (@scene_shape_is_consistent_spec tiff S Hne) as (b & Hb & Hiff).
    split; intros H; rewrite Hb; f_equal.
    + apply Hiff. exact H.
    + destruct b; [|reflexivity]. exfalso. apply H, Hiff. reflexivity.
Qed.

Lemma not_same_shape_nonempty (tiff : TiffFile) :
  ~ all_same_shape tiff -> series tiff <> [].
Proof.
  intros H E. apply H. intros a b Ha. rewrite E in Ha. destruct Ha.
Qed.

Lemma consistent_false (tiff : TiffFile) (S : Z) :
  ~ all_same_shape tiff -> _scene_shape_is_consistent tiff S = Returns false.
Proof.
  intros H.
  destruct (@scene_shape_is_consistent_spec tiff S (not_same_shape_nonempty H))
    as (b & Hb & Hiff).
  rewrite Hb. destruct b; [|reflexivity]. exfalso. apply H, Hiff. reflexivity.
Qed.

Lemma consistent_true (tiff : TiffFile) (S : Z) :
  series tiff <> [] -> all_same_shape tiff ->
  _scene_shape_is_consistent tiff S = Returns true.
Proof.
  intros Hne H.
  destruct (@scene_shape_is_consistent_spec tiff S Hne) as (b & Hb & Hiff).
  rewrite Hb. f_equal. apply Hiff. exact H.
Qed.

(** When the scenes differ in shape, [_read_immediate] returns the array of
    the scene [S] alone, and fails with [IndexError] when there is no such
    scene. *)
Theorem read_immediate_selected_scene (tiff : TiffFile) (S : Z) :
  ~ all_same_shape tiff ->
  (forall chosen, py_index (series tiff) S = Returns chosen ->
                  _read_immediate tiff S = Returns (scene_array chosen)) /\
  (py_index (series tiff) S = Raises IndexError ->
   _read_immediate tiff S = Raises IndexError).
Proof.
  intros H. unfold _read_immediate. rewrite (consistent_false S H). cbn [obind negb].
  split.
  - intros chosen ->. reflexivity.
  - intros ->. reflexivity.
Qed.

Lemma forallb_shape (shp : list nat) (arrays : list ndarray) :
  Forall (fun a => nd_shape a = shp) arrays ->
  forallb (fun a => shape_eqb (nd_shape a) shp) arrays = true.
Proof.
  induction 1 as [|a arrays Ha _ IH]; [reflexivity|].
  simpl. rewrite Ha, shape_eqb_refl. exact IH.
Qed.

Lemma promote_types_same (d : dtype) : promote_types d d = d.
Proof. destruct d; reflexivity. Qed.

Lemma promote_types_one_dtype (d : dtype) (arrays : list ndarray) :
  Forall (fun a => nd_dtype a = d) arrays ->
  fold_left promote_types (map nd_dtype arrays) d = d.
Proof.
  induction 1 as [|a arrays Ha _ IH]; [reflexivity|].
  simpl. rewrite Ha, promote_types_same. exact IH.
Qed.

Lemma np_stack_scenes (first : TiffPageSeries) (rest : list TiffPageSeries) :
  Forall (fun scene => nd_shape (scene_array scene) = nd_shape (scene_array first))
         (first :: rest) ->
  Forall (fun scene => nd_dtype (scene_array scene) = nd_dtype (scene_array first))
         (first :: rest) ->
  np_stack (map scene_array (first :: rest)) =
  Returns {| nd_shape := length (first :: rest) :: nd_shape (scene_array first);
             nd_dtype := nd_dtype (scene_array first);
             nd_data := concat (map (fun scene => nd_data (scene_array scene))
                                    (first :: rest)) |}.
Proof.
  intros Hshapes Hdtypes. unfold np_stack.
  change (map scene_array (first :: rest))
    with (scene_array first :: map scene_array rest).
  cbv iota.
  change (scene_array first :: map scene_array rest)
    with (map scene_array (first :: rest)).
  rewrite (@forallb_shape (nd_shape (scene_array first)) (map scene_array (first :: rest)))
    by (apply Forall_map; exact Hshapes).
  rewrite (@promote_types_one_dtype (nd_dtype (scene_array first))
             (map scene_array (first :: rest)))
    by (apply Forall_map; exact Hdtypes).
  rewrite map_map, length_map. reflexivity.
Qed.

Lemma read_immediate_consistent (tiff : TiffFile) (S : Z) :
  series tiff <> [] ->
  all_same_shape tiff ->
  _read_immediate tiff S =
  if 1 <? length (series tiff) then np_stack (map scene_array (series tiff))
  else Returns (file_array tiff).
Proof.
  intros Hne Hsame. unfold _read_immediate.
  rewrite (@consistent_true tiff S Hne Hsame). reflexivity.
Qed.

(** When two or more scenes share one shape and their arrays one shape and
    one dtype, [_read_immediate] stacks the arrays in order along a new
    leading axis, in that dtype. *)
Theorem read_immediate_stacks_scenes
        (tiff : TiffFile) (S : Z) (first : TiffPageSeries) (rest : list TiffPageSeries) :
  series tiff = first :: rest ->
  rest <> [] ->
  all_same_shape tiff ->
  Forall (fun scene => nd_shape (scene_array scene) = nd_shape (scene_array first))
         (series tiff) ->
  Forall (fun scene => nd_dtype (scene_array scene) = nd_dtype (scene_array first))
         (series tiff) ->
  _read_immediate tiff S =
  Returns {| nd_shape := length (series tiff) :: nd_shape (scene_array first);
             nd_dtype := nd_dtype (scene_array first);
             nd_data := concat (map (fun scene => nd_data (scene_array scene))
                                    (series tiff)) |}.
Proof.
  intros Hs Hrest Hsame Hshapes Hdtypes.
  rewrite read_immediate_consistent by (try rewrite Hs; congruence || assumption).
  rewrite Hs in *. destruct rest as [|second rest]; [congruence|].
  change (1 <? length (first :: second :: rest)) with true. cbv iota.
  apply np_stack_scenes; [exact Hshapes | exact Hdtypes].
Qed.

Section ResolverMore.
Variable DefaultOrder : list ascii.
Variable Scene : ascii.

(** * The properties record when a label is not recognized *)

(** In the namespace of the module, a file whose selected scene declares a
    label outside [DefaultOrder] makes [_get_tiff_properties] fail with
    [NameError]. *)
Theorem tiff_properties_unrecognized_label
        (tiff : TiffFile) (S : Z) (scene : TiffPageSeries) (page0 : TiffPage) (d : ascii) :
  py_index (series tiff) S = Returns scene ->
  py_index (pages tiff) 0 = Returns page0 ->
  In d (axes (scene_pages scene)) ->
  ~ In d DefaultOrder ->
  _get_tiff_properties DefaultOrder Scene module_namespace tiff S = Raises NameError.
Proof.
  intros Hscene Hpage Hin Hd. unfold _get_tiff_properties.
  rewrite Hscene, Hpage. cbn [obind].
  assert (E : all_recognized DefaultOrder (axes (scene_pages scene)) = false).
  { destruct (all_recognized DefaultOrder (axes (scene_pages scene))) eqn:E; [|reflexivity].
    unfold all_recognized in E. rewrite forallb_forall in E.
    specialize (E d Hin). apply mem_In in E. contradiction. }
  rewrite E. reflexivity.
Qed.

(** [_get_tiff_properties] fails with [IndexError] when there is no scene
    [S] and when the file has no page. *)
Theorem tiff_properties_index_errors (ns : Namespace) (tiff : TiffFile) (S : Z) :
  (py_index (series tiff) S = Raises IndexError ->
   _get_tiff_properties DefaultOrder Scene ns tiff S = Raises IndexError) /\
  (pages tiff = [] ->
   _get_tiff_properties DefaultOrder Scene ns tiff S = Raises IndexError).
Proof.
  unfold _get_tiff_properties. split.
  - intros ->. reflexivity.
  - intros ->.
    destruct (py_index_cases (series tiff) S) as [(scene & -> & _) | ->]; reflexivity.
Qed.

(** * The accessors when introspection fails *)

Lemma call_failing (ns : Namespace) (e : exn) (a : accessor) (r : TiffReader) :
  _get_tiff_properties DefaultOrder Scene ns (_file r) (specific_s_index r) = Raises e ->
  cache_empty r ->
  exists r',
    call DefaultOrder Scene ns a r = (r', Raises e) /\
    cache_empty r' /\
    _file r' = _file r /\ specific_s_index r' = specific_s_index r /\
    introspections r' = Datatypes.S (introspections r).
Proof.
  intros H (Hd & Hs & Ht).
  destruct a; simpl; unfold dims, shape, dtype_of, accessor_body, populate;
    rewrite ?Hd, ?Hs, ?Ht; simpl; rewrite H; eexists; (split; [reflexivity|]);
      unfold cache_empty; simpl; auto.
Qed.

Lemma run_failing (ns : Namespace) (e : exn) (calls : list accessor) :
  forall r,
    _get_tiff_properties DefaultOrder Scene ns (_file r) (specific_s_index r) = Raises e ->
    cache_empty r ->
    exists r',
      run DefaultOrder Scene ns calls r = (r', map (fun _ => Raises e) calls) /\
      cache_empty r' /\
      introspections r' = introspections r + length calls.
Proof.
  induction calls as [|a calls IH]; intros r H Hr.
  - exists r. simpl. auto.
  - destruct (@call_failing ns e a r H Hr) as (r1 & Hcall & Hr1 & Hf & Hs & Hn).
    rewrite <- Hf, <- Hs in H.
    destruct (IH r1 H Hr1) as (r2 & Hrun & Hr2 & Hn2).
    exists r2. cbn [run map]. rewrite Hcall, Hrun.
    split; [reflexivity|]. split; [exact Hr2|]. simpl length. lia.
Qed.

(** When introspection fails, every access fails the same way, leaves the
    three cached attributes unset, and calls [_get_tiff_properties]
    again. *)
Theorem accessors_retry_after_failure
        (ns : Namespace) (tiff : TiffFile) (S : Z) (e : exn) (calls : list accessor) :
  _get_tiff_properties DefaultOrder Scene ns tiff S = Raises e ->
  exists r,
    run DefaultOrder Scene ns calls (TiffReader_init tiff S) =
    (r, map (fun _ => Raises e) calls) /\
    introspections r = length calls /\
    _dims r = None /\ _shape r = None /\ _dtype r = None.
Proof.
  intros H.
  destruct (@run_failing ns e calls (TiffReader_init tiff S) H) as (r & Hrun & Hr & Hn).
  - repeat split.
  - exists r. split; [exact Hrun|]. split; [exact Hn|]. exact Hr.
Qed.

(** * The guessing loop on any declared labels *)

Lemma first_unused_In (guess used : list ascii) (x : ascii) :
  first_unused guess used = Some x -> In x guess /\ ~ In x used.
Proof.
  intros H. pose proof (first_unused_spec guess used) as Hspec. rewrite H in Hspec.
  destruct Hspec as (g1 & g2 & -> & _ & Hx). split; [|exact Hx].
  apply in_or_app. right. left. reflexivity.
Qed.

Lemma best_guess_loop_positions (guess declared : list ascii) :
  forall best_guess,
  exists out,
    best_guess_loop DefaultOrder guess declared best_guess = best_guess ++ out /\
    Forall2 (resolved_label DefaultOrder guess) declared out.
Proof.
  induction declared as [|d declared IH]; intros best_guess.
  - exists []. simpl. rewrite app_nil_r. split; [reflexivity | constructor].
  - simpl best_guess_loop. destruct (mem d DefaultOrder) eqn:E.
    + apply mem_In in E.
      destruct (IH (best_guess ++ [d])) as (out & -> & Hout).
      exists (d :: out). rewrite <- app_assoc. split; [reflexivity|].
      constructor; [|exact Hout]. split; [reflexivity | contradiction].
    + apply mem_not_In in E.
      destruct (first_unused guess best_guess) as [g|] eqn:G.
      * destruct (IH (best_guess ++ [g])) as (out & -> & Hout).
        exists (g :: out). rewrite <- app_assoc. split; [reflexivity|].
        constructor; [|exact Hout]. split; [contradiction|].
        intros _. right. apply (@first_unused_In _ _ _ G).
      * destruct (IH (best_guess ++ [d])) as (out & -> & Hout).
        exists (d :: out). rewrite <- app_assoc. split; [reflexivity|].
        constructor; [|exact Hout]. split; [reflexivity | left; reflexivity].
Qed.

(** With its two free names bound, [_guess_tiff_dims] returns as many labels
    as were declared, keeps every recognized label at its position, and puts
    at the position of an unrecognized one either that symbol or a guessed
    label. *)
Theorem guess_tiff_dims_keeps_positions
        (ns : Namespace) (tiff : TiffFile) (S : Z)
        (guess_dim_order : list nat -> list ascii) (scene : TiffPageSeries)
        (declared : list ascii) :
  ns_self ns = Some guess_dim_order ->
  ns_single_scene_dims ns = Some declared ->
  py_index (series tiff) S = Returns scene ->
  exists result,
    _guess_tiff_dims DefaultOrder ns tiff S = Returns result /\
    length result = length declared /\
    Forall2 (resolved_label DefaultOrder (guess_dim_order (pages_shape (scene_pages scene))))
            declared result.
Proof.
  intros Hself Hdims Hscene.
  destruct (@best_guess_loop_positions
              (guess_dim_order (pages_shape (scene_pages scene))) declared [])
    as (out & Hrun & Hout).
  exists out. unfold _guess_tiff_dims. rewrite Hself, Hscene. cbn [obind].
  rewrite Hdims, Hrun. split; [reflexivity|]. split; [|exact Hout].
  symmetry. eapply Forall2_length; eassumption.
Qed.

End ResolverMore.

(** * Every position of a grid is enumerated *)

Lemma nth_error_block (L : list (list nat)) (j : nat) (x : list nat) (n : nat) :
  nth_error L j = Some x ->
  forall a i, i < n ->
    nth_error (flat_map (fun i => map (cons i) L) (seq a n)) (i * length L + j) =
    Some ((a + i) :: x).
Proof.
  intros Hj.
  assert (Hlt : j < length L) by (apply nth_error_Some; congruence).
  induction n as [|n IH]; intros a i Hi; [lia|].
  simpl seq. simpl flat_map. destruct i as [|i].
  - simpl. rewrite nth_error_app1 by (rewrite length_map; exact Hlt).
    rewrite nth_error_map, Hj, Nat.add_0_r. reflexivity.
  - rewrite nth_error_app2 by (rewrite length_map; simpl; lia).
    rewrite length_map.
    replace (Datatypes.S i * length L + j - length L) with (i * length L + j)
      by (simpl; lia).
    rewrite (IH (Datatypes.S a) i) by lia.
    f_equal. f_equal. lia.
Qed.

Lemma ndindex_complete (shape : list nat) :
  forall np_index,
    Forall2 lt np_index shape ->
    nth_error (ndindex shape) (ravel shape np_index) = Some np_index.
Proof.
  induction shape as [|n rest IH]; intros np_index H; inversion H as [|i ? tail ? Hi Htail]; subst.
  - reflexivity.
  - simpl ndindex. simpl ravel. rewrite <- ndindex_length.
    rewrite (@nth_error_block _ _ _ n (IH _ Htail) 0 i Hi). reflexivity.
Qed.

Lemma fill_lazy_arrays_at (shape : list nat) (sample : ndarray) (np_index : list nat) :
  Forall2 lt np_index shape ->
  grid_get (fill_lazy_arrays shape sample) np_index =
  Some (node_for sample (ravel shape np_index, np_index)).
Proof.
  intros H. apply fill_lazy_arrays_get. apply ndindex_complete. exact H.
Qed.

(** * The grid of [_read_delayed] *)

Lemma drop_last2_app {A} (l : list A) (a b : A) : drop_last2 (l ++ [a; b]) = l.
Proof.
  unfold drop_last2. rewrite length_app. simpl length.
  replace (length l + 2 - 2) with (length l) by lia.
  rewrite firstn_app, firstn_all, Nat.sub_diag. simpl. apply app_nil_r.
Qed.

Lemma prod_app (l1 l2 : list nat) : prod (l1 ++ l2) = prod l1 * prod l2.
Proof.
  induction l1 as [|a l1 IH]; simpl; [lia|]. rewrite IH. lia.
Qed.

Lemma prod_pos (l : list nat) : Forall (lt 0) l -> 0 < prod l.
Proof.
  induction 1 as [|a l Ha _ IH]; simpl; [lia|]. nia.
Qed.

Lemma block_shape_planes (pre : list nat) (y x : nat) :
  block_shape (pre ++ [1; 1]) [y; x] = pre ++ [y; x].
Proof.
  unfold block_shape. rewrite length_app. simpl length.
  replace (Nat.max (length pre + 2) 2) with (length pre + 2) by lia.
  unfold pad_left. rewrite length_app. simpl length.
  rewrite Nat.sub_diag. simpl repeat. simpl app at 1.
  replace (length pre + 2 - 2) with (length pre) by lia.
  induction pre as [|a pre IH]; simpl.
  - rewrite !Nat.add_0_r. reflexivity.
  - rewrite Nat.mul_1_r. f_equal. exact IH.
Qed.

Lemma fill_lazy_arrays_declared (shape : list nat) (sample : ndarray) :
  0 < prod shape ->
  declared (fill_lazy_arrays shape sample) =
  Some (block_shape shape (nd_shape sample), nd_dtype sample).
Proof.
  intros Hpos. rewrite fill_lazy_arrays_cells. unfold declared, enumerate.
  cbn [grid_cells grid_shape].
  rewrite <- ndindex_length in Hpos.
  destruct (ndindex shape) as [|first rest]; [simpl in Hpos; lia|].
  reflexivity.
Qed.

Lemma read_delayed_operating
      (tiff : TiffFile) (S : Z) (scene : TiffPageSeries) (n : nat)
      (page0 : TiffPage) (more : list TiffPage) :
  operating tiff S scene n ->
  items (scene_pages scene) = page0 :: more ->
  let data := da_block (fill_lazy_arrays
                          (drop_last2 (n :: scene_shape scene) ++ [1; 1])
                          (page_array page0)) in
  _read_delayed tiff S = Returns (if (n =? 1)%nat then da_getitem0 data else data).
Proof.
  intros Hop Hitems data. subst data. unfold _read_delayed.
  destruct Hop as [(Hsame & -> & rest & Hs) | (Hdiff & -> & Hchosen)].
  - rewrite (@consistent_true tiff S) by (try rewrite Hs; congruence || assumption).
    rewrite Hs, py_index_0_cons. cbn [obind negb fst snd].
    rewrite py_index_0_cons. cbn [obind]. rewrite Hitems, py_index_0_cons. cbn [obind].
    destruct (length (scene :: rest) =? 1); reflexivity.
  - rewrite (consistent_false S Hdiff).
    pose proof (not_same_shape_nonempty Hdiff) as Hne.
    destruct (series tiff) as [|first rest] eqn:Hs; [congruence|].
    rewrite py_index_0_cons. cbn [obind negb]. rewrite Hchosen. cbn [obind fst snd].
    rewrite py_index_0_cons. cbn [obind]. rewrite Hitems, py_index_0_cons. cbn [obind].
    reflexivity.
Qed.

(** The declared shape of the lazy array: the leading extents of the
    operating shape followed by the extents of the sample plane, behind the
    number of scenes when several scenes are laid out. *)
Theorem read_delayed_shape
        (tiff : TiffFile) (S : Z) (scene : TiffPageSeries) (n : nat)
        (page0 : TiffPage) (more : list TiffPage) (lead : list nat) (h w y x : nat) :
  operating tiff S scene n ->
  scene_shape scene = lead ++ [h; w] ->
  Forall (lt 0) lead ->
  items (scene_pages scene) = page0 :: more ->
  nd_shape (page_array page0) = [y; x] ->
  exists data,
    _read_delayed tiff S = Returns data /\
    da_shape data =
    Some (if (n =? 1)%nat then lead ++ [y; x] else n :: lead ++ [y; x]).
Proof.
  intros Hop Hshape Hlead Hitems Hsample.
  assert (Hn : 0 < n).
  { destruct Hop as [(_ & -> & rest & ->) | (_ & -> & _)]; simpl; lia. }
  rewrite (read_delayed_operating Hop Hitems). rewrite Hshape.
  change (n :: lead ++ [h; w]) with ((n :: lead) ++ [h; w]).
  rewrite drop_last2_app.
  assert (Hdecl : da_shape (da_block (fill_lazy_arrays ((n :: lead) ++ [1; 1])
                                                       (page_array page0))) =
                  Some (n :: lead ++ [y; x])).
  { cbn [da_shape]. rewrite fill_lazy_arrays_declared.
    - rewrite Hsample, block_shape_planes. reflexivity.
    - rewrite prod_app. simpl prod at 2.
      pose proof (@prod_pos (n :: lead)) as Hp.
      assert (0 < prod (n :: lead)) by (apply Hp; constructor; assumption). lia. }
  eexists. split; [reflexivity|].
  destruct (n =? 1)%nat.
  - cbn [da_shape] in *. rewrite Hdecl. reflexivity.
  - exact Hdecl.
Qed.

(** For scenes of shape (Z, h, w), the node at scene [s] and depth [z] reads
    page [(s * Z + z) // (s + 1)] of scene [s]: a page of that scene, the
    page [z] itself in the first scene, and never the first page at depth 0
    of a later scene once Z is at least 2. *)
Theorem z_stack_page_index
        (tiff : TiffFile) (S : Z) (first : TiffPageSeries) (rest : list TiffPageSeries)
        (page0 : TiffPage) (more : list TiffPage) (Z0 h w s z : nat) :
  series tiff = first :: rest ->
  all_same_shape tiff ->
  scene_shape first = [Z0; h; w] ->
  items (scene_pages first) = page0 :: more ->
  s < length (series tiff) ->
  z < Z0 ->
  exists data node,
    _read_delayed tiff S = Returns data /\
    grid_get (grid_of data) [s; z; 0; 0] = Some node /\
    node_scene node = s /\
    node_page node = (s * Z0 + z) / (s + 1) /\
    node_page node < Z0 /\
    (s = 0 -> node_page node = z) /\
    (0 < s -> z = 0 -> 2 <= Z0 -> 0 < node_page node).
Proof.
  intros Hs Hsame Hshape Hitems Hlt Hz.
  assert (Hop : operating tiff S first (length (series tiff))).
  { left. split; [exact Hsame|]. split; [reflexivity|]. exists rest. exact Hs. }
  pose proof (read_delayed_operating Hop Hitems) as Hread. cbv zeta in Hread.
  rewrite Hshape in Hread.
  change (length (series tiff) :: [Z0; h; w])
    with ([length (series tiff); Z0] ++ [h; w]) in Hread.
  rewrite drop_last2_app in Hread. simpl app in Hread.
  set (G := [length (series tiff); Z0; 1; 1]) in *.
  assert (Hget : grid_get (fill_lazy_arrays G (page_array page0)) [s; z; 0; 0] =
                 Some (node_for (page_array page0) (s * Z0 + z, [s; z; 0; 0]))).
  { rewrite fill_lazy_arrays_at by (subst G; repeat constructor; assumption).
    subst G. simpl ravel. do 3 f_equal. lia. }
  assert (Hpage : (s * Z0 + z) / (s + 1) < Z0).
  { apply Nat.Div0.div_lt_upper_bound. nia. }
  eexists. exists (node_for (page_array page0) (s * Z0 + z, [s; z; 0; 0])).
  split; [exact Hread|].
  split; [destruct (length (series tiff) =? 1); exact Hget|].
  split; [reflexivity|]. split; [reflexivity|]. split; [exact Hpage|].
  cbn [node_for node_page fst snd hd]. split.
  - intros ->. change (0 * Z0 + z) with z. change (0 + 1) with 1.
    apply Nat.div_1_r.
  - intros Hs0 -> HZ. apply Nat.div_str_pos. nia.
Qed.

Lemma drop_last2_leading_one (shape : list nat) :
  exists tl, drop_last2 (1 :: shape) ++ [1; 1] = 1 :: tl.
Proof.
  destruct shape as [|a [|b r]]; [eexists; reflexivity .. |].
  unfold drop_last2. simpl length. simpl Nat.sub. simpl firstn. simpl app.
  eexists. reflexivity.
Qed.

(** When the scenes differ in shape, every node of the lazy array is bound
    to scene index 0, whichever scene [S] was selected. *)
Theorem read_delayed_selected_scene_reads_scene_0
        (tiff : TiffFile) (S : Z) (data : darray) :
  ~ all_same_shape tiff ->
  _read_delayed tiff S = Returns data ->
  Forall (fun cell => exists node, cell = Some node /\ node_scene node = 0)
         (grid_cells (grid_of data)).
Proof.
  intros Hdiff Hread.
  destruct (py_index_cases (series tiff) S) as [(chosen & Hchosen & _) | Hfail].
  - pose proof (not_same_shape_nonempty Hdiff) as Hne.
    unfold _read_delayed in Hread. rewrite (consistent_false S Hdiff) in Hread.
    destruct (series tiff) as [|first rest] eqn:Hs; [congruence|].
    rewrite py_index_0_cons in Hread. cbn [obind negb] in Hread.
    rewrite Hchosen in Hread. cbn [obind fst snd] in Hread.
    rewrite py_index_0_cons in Hread. cbn [obind] in Hread.
    apply obind_Returns in Hread. destruct Hread as (page0 & _ & Hread).
    simpl length in Hread. simpl Nat.eqb in Hread. cbv iota in Hread.
    injection Hread as <-. cbn [grid_of].
    destruct (drop_last2_leading_one (scene_shape chosen)) as (tl & ->).
    rewrite fill_lazy_arrays_cells. cbn [grid_cells].
    apply Forall_forall. intros cell Hin.
    apply in_map_iff in Hin. destruct Hin as ((k & np_index) & <- & Hin).
    eexists. split; [reflexivity|].
    unfold enumerate in Hin. apply in_combine_r in Hin.
    apply ndindex_in_bounds in Hin.
    inversion Hin as [|i ? ? ? Hi _]; subst. simpl. lia.
  - unfold _read_delayed in Hread. rewrite (consistent_false S Hdiff) in Hread.
    pose proof (not_same_shape_nonempty Hdiff) as Hne.
    destruct (series tiff) as [|first rest] eqn:Hs; [congruence|].
    rewrite py_index_0_cons in Hread. cbn [obind negb] in Hread.
    rewrite Hfail in Hread. discriminate Hread.
Qed.

(** * Merging a column of planes *)

Lemma flat_map_nth_seq {A} (chunks : list (list A)) :
  flat_map (fun s => nth s chunks []) (seq 0 (length chunks)) = concat chunks.
Proof.
  induction chunks as [|c chunks IH]; [reflexivity|].
  simpl length. simpl seq. simpl flat_map. simpl concat. f_equal.
  rewrite <- seq_shift, flat_map_concat_map, map_map, <- flat_map_concat_map.
  exact IH.
Qed.

Lemma block_data_column (h w : nat) (chunks : list (list Z)) :
  Forall (fun c => length c = h * w) chunks ->
  block_data [length chunks; 1; 1] [h; w] chunks = concat chunks.
Proof.
  intros Hlen. unfold block_data. simpl length. simpl Nat.max.
  unfold pad_left. simpl length. simpl Nat.sub. simpl repeat. simpl app.
  simpl zip_with at 3. rewrite Nat.mul_1_r, !Nat.add_0_r.
  rewrite <- flat_map_nth_seq.
  change (ndindex [length chunks; h; w])
    with (flat_map (fun i => map (cons i) (ndindex [h; w])) (seq 0 (length chunks))).
  rewrite !flat_map_concat_map, concat_map, map_map. f_equal.
  apply map_ext_in. intros s Hs. apply in_seq in Hs.
  rewrite map_map.
  transitivity (map (fun k => nth k (nth s chunks []) 0%Z) (seq 0 (length (nth s chunks [])))).
  - assert (Hc : length (nth s chunks []) = prod [h; w]).
    { rewrite Forall_forall in Hlen. rewrite (Hlen (nth s chunks [])).
      - simpl. lia.
      - apply nth_In. lia. }
    rewrite Hc, <- ndindex_ravel, map_map.
    apply map_ext_in. intros p Hp. apply ndindex_in_bounds in Hp.
    inversion Hp as [|i ? p1 ? Hi Hp1]; subst.
    inversion Hp1 as [|j ? p2 ? Hj Hp2]; subst.
    inversion Hp2; subst.
    cbn [zip_with]. rewrite Nat.div_1_r, Nat.mod_1_r.
    rewrite (Nat.div_small _ _ Hi), (Nat.div_small _ _ Hj).
    rewrite (Nat.mod_small _ _ Hi), (Nat.mod_small _ _ Hj).
    simpl ravel. replace (s * 1 + 0) with s by lia. reflexivity.
  - apply map_nth_seq_all.
Qed.

Lemma ndindex_column (n : nat) :
  ndindex [n; 1; 1] = map (fun s => [s; 0; 0]) (seq 0 n).
Proof.
  simpl ndindex. rewrite flat_map_concat_map.
  induction (seq 0 n) as [|s l IH]; [reflexivity|].
  simpl. f_equal. exact IH.
Qed.

Lemma combine_seq_map {A} (f : nat -> A) (n : nat) :
  forall a, combine (seq a n) (map f (seq a n)) = map (fun s => (s, f s)) (seq a n).
Proof.
  induction n as [|n IH]; intros a; [reflexivity|].
  simpl. f_equal. apply IH.
Qed.

Lemma enumerate_column (n : nat) :
  enumerate (map (fun s => [s; 0; 0]) (seq 0 n)) =
  map (fun s => (s, [s; 0; 0])) (seq 0 n).
Proof.
  unfold enumerate. rewrite length_map, length_seq. apply combine_seq_map.
Qed.

Lemma py_index_nat {A} (l : list A) (k : nat) (a : A) :
  nth_error l k = Some a -> py_index l (Z.of_nat k) = Returns a.
Proof.
  intros H. assert (Hk : k < length l) by (apply nth_error_Some; congruence).
  unfold py_index.
  destruct (Z.ltb_spec (Z.of_nat k) 0) as [Hneg | _]; [lia|].
  destruct (Z.leb_spec 0 (Z.of_nat k)) as [_ | Hneg]; [|lia].
  destruct (Z.ltb_spec (Z.of_nat k) (Z.of_nat (length l))) as [_ | Hge]; [|lia].
  simpl andb. cbv iota. rewrite Nat2Z.id, H. reflexivity.
Qed.

Lemma force_plane (tiff : TiffFile) (h w : nat) (k : nat) (scene : TiffPageSeries)
      (shape : list nat) (dt : dtype) :
  nth_error (series tiff) k = Some scene ->
  plane_scene h w scene ->
  shape = [h; w] ->
  force_node tiff (Some {| node_scene := k; node_page := k / (k + 1);
                           node_shape := shape; node_dtype := dt |}) =
  Returns (nd_data (scene_array scene)).
Proof.
  intros Hk (_ & Hshape & _ & page & more & Hitems & Hpage) ->.
  cbn [force_node node_scene node_page node_shape]. unfold _imread.
  rewrite (py_index_nat _ _ Hk). cbn [obind].
  rewrite Nat.div_small by lia. change (Z.of_nat 0) with 0%Z.
  rewrite Hitems, py_index_0_cons. cbn [obind].
  rewrite Hpage, Hshape, shape_eqb_refl. reflexivity.
Qed.

Lemma force_column (tiff : TiffFile) (h w : nat) (sample : ndarray) :
  nd_shape sample = [h; w] ->
  forall scenes pre,
    series tiff = pre ++ scenes ->
    Forall (plane_scene h w) scenes ->
    force_all tiff (map (fun it => Some (node_for sample it))
                        (map (fun s => (s, [s; 0; 0])) (seq (length pre) (length scenes)))) =
    Returns (map (fun scene => nd_data (scene_array scene)) scenes).
Proof.
  intros Hsample. induction scenes as [|scene scenes IH]; intros pre Hs Hall.
  - reflexivity.
  - inversion Hall as [|? ? Hscene Hrest]; subst.
    simpl length. simpl seq. cbn [map force_all].
    unfold node_for at 1. cbn [fst snd hd].
    rewrite (@force_plane tiff h w (length pre) scene (nd_shape sample) (nd_dtype sample)).
    + cbn [obind].
      replace (Datatypes.S (length pre)) with (length (pre ++ [scene]))
        by (rewrite length_app; simpl; lia).
      rewrite (IH (pre ++ [scene])).
      * reflexivity.
      * rewrite <- app_assoc. exact Hs.
      * exact Hrest.
    + rewrite Hs, nth_error_app2, Nat.sub_diag by lia. reflexivity.
    + exact Hscene.
    + exact Hsample.
Qed.

Lemma plane_scenes_same_shape (tiff : TiffFile) (h w : nat) :
  Forall (plane_scene h w) (series tiff) -> all_same_shape tiff.
Proof.
  intros H a b Ha Hb. rewrite Forall_forall in H.
  destruct (H a Ha) as [-> _]. destruct (H b Hb) as [-> _]. reflexivity.
Qed.

(** For two or more scenes that are single planes of one shape and one
    dtype, forcing the lazy array gives the array of [_read_immediate]: the
    planes stacked in order, in that dtype. *)
Theorem read_lazy_planes_agree
        (tiff : TiffFile) (S : Z) (first second : TiffPageSeries)
        (rest : list TiffPageSeries) (h w : nat) :
  series tiff = first :: second :: rest ->
  Forall (plane_scene h w) (series tiff) ->
  Forall (fun scene => nd_dtype (scene_array scene) = nd_dtype (scene_array first))
         (series tiff) ->
  let stacked :=
    {| nd_shape := [length (series tiff); h; w];
       nd_dtype := nd_dtype (scene_array first);
       nd_data := concat (map (fun scene => nd_data (scene_array scene)) (series tiff)) |} in
  exists data,
    _read_delayed tiff S = Returns data /\
    da_shape data = Some [length (series tiff); h; w] /\
    compute tiff data = Returns stacked /\
    _read_immediate tiff S = Returns stacked.
Proof.
  intros Hs Hall Hdtypes stacked.
  pose proof (@plane_scenes_same_shape tiff h w Hall) as Hsame.
  assert (Hfirst : plane_scene h w first).
  { rewrite Hs in Hall. inversion Hall; assumption. }
  destruct Hfirst as (Hshape & Hashape & Halen & page0 & more & Hitems & Hpage).
  assert (Hop : operating tiff S first (length (series tiff))).
  { left. split; [exact Hsame|]. split; [reflexivity|]. eexists. exact Hs. }
  pose proof (read_delayed_operating Hop Hitems) as Hread. cbv zeta in Hread.
  assert (Hn : (length (series tiff) =? 1) = false).
  { rewrite Hs. reflexivity. }
  rewrite Hn, Hshape in Hread.
  change (length (series tiff) :: [h; w]) with ([length (series tiff)] ++ [h; w]) in Hread.
  rewrite drop_last2_app in Hread. simpl app in Hread.
  set (n := length (series tiff)) in *.
  assert (Hsample : nd_shape (page_array page0) = [h; w]) by (rewrite Hpage; exact Hashape).
  assert (Hcells : fill_lazy_arrays [n; 1; 1] (page_array page0) =
                   {| grid_shape := [n; 1; 1];
                      grid_cells := map (fun it => Some (node_for (page_array page0) it))
                                        (map (fun s => (s, [s; 0; 0])) (seq 0 n)) |}).
  { rewrite fill_lazy_arrays_cells, ndindex_column, enumerate_column. reflexivity. }
  assert (Hdecl : declared (fill_lazy_arrays [n; 1; 1] (page_array page0)) =
                  Some ([n; h; w], nd_dtype (page_array page0))).
  { rewrite fill_lazy_arrays_declared.
    - rewrite Hsample.
      change [n; 1; 1] with ([n] ++ [1; 1]). rewrite block_shape_planes. reflexivity.
    - subst n. rewrite Hs. simpl. lia. }
  assert (Hforce : force_all tiff (grid_cells (fill_lazy_arrays [n; 1; 1] (page_array page0))) =
                   Returns (map (fun scene => nd_data (scene_array scene)) (series tiff))).
  { rewrite Hcells. cbn [grid_cells]. subst n.
    apply (@force_column tiff h w (page_array page0) Hsample (series tiff) []);
      [reflexivity | exact Hall]. }
  assert (Hn' : (1 <? length (series tiff)) = true) by (rewrite Hs; reflexivity).
  assert (Himm : _read_immediate tiff S = Returns stacked).
  { rewrite read_immediate_consistent by (try rewrite Hs; congruence || assumption).
    rewrite Hn'. subst stacked n. rewrite Hs.
    rewrite np_stack_scenes.
    - rewrite Hashape. reflexivity.
    - rewrite <- Hs. apply Forall_forall. intros scene Hin. rewrite Forall_forall in Hall.
      destruct (Hall scene Hin) as (_ & -> & _). symmetry. exact Hashape.
    - rewrite <- Hs. exact Hdtypes. }
  eexists. split; [exact Hread|]. split; [|split; [|exact Himm]].
  - cbn [da_shape]. rewrite Hdecl. reflexivity.
  - cbn [compute]. rewrite Hdecl, Hforce. cbn [obind].
    rewrite Hcells. cbn [grid_cells grid_shape].
    assert (Hseq : seq 0 n = 0 :: seq 1 (n - 1)).
    { subst n. rewrite Hs. reflexivity. }
    rewrite Hseq. cbn [map]. cbn [node_for node_shape].
    rewrite Hsample.
    assert (Hbd : block_data [n; 1; 1] [h; w]
                             (map (fun scene => nd_data (scene_array scene)) (series tiff)) =
                  concat (map (fun scene => nd_data (scene_array scene)) (series tiff))).
    { pose proof (@block_data_column h w
                    (map (fun scene => nd_data (scene_array scene)) (series tiff))) as E.
      rewrite length_map in E. apply E.
      apply Forall_map. apply Forall_forall. intros scene Hin.
      rewrite Forall_forall in Hall. destruct (Hall scene Hin) as (_ & _ & Hl & _).
      exact Hl. }
    rewrite Hbd. subst stacked. rewrite Hpage. reflexivity.
Qed.

(** * The further properties on the sample inputs *)

Lemma classic_truncated_container :
  container classic_truncated Classic classic_truncated_ifds.
Proof. split; [layout_header | layout_chain]. Qed.

Lemma two_scenes_same_shape : all_same_shape two_scenes.
Proof.
  intros a b Ha Hb. simpl in Ha, Hb.
  repeat match goal with
         | H : _ \/ _ |- _ => destruct H as [<- | H]
         | H : False |- _ => destruct H
         end; reflexivity.
Qed.

Lemma mixed_scenes_differ : ~ all_same_shape mixed_scenes.
Proof.
  intros H.
  specialize (H (sample_scene "ZYX" 3 2 2) (sample_scene "ZYX" 2 4 4)
                (or_introl eq_refl) (or_intror (or_introl eq_refl))).
  discriminate H.
Qed.

Lemma mixed_scenes_read : _read_delayed mixed_scenes 1 = Returns mixed_scenes_lazy.
Proof. vm_compute. reflexivity. Qed.

Lemma two_planes_are_planes : Forall (plane_scene 2 3) (series two_planes).
Proof.
  repeat constructor; eexists; eexists; split; reflexivity.
Qed.

Lemma unknown_marker_not_tiff_witness :
  _is_this_type [] = Returns false /\
  get_image_description 0 [] = Returns None /\
  metadata_bytes 0 [] = Returns [].
Proof.
  apply (@unknown_marker_not_tiff [] 0); discriminate.
Defined.

Lemma sniffer_valid_header_witness : _is_this_type classic_abc = Returns true.
Proof.
  apply (@sniffer_valid_header classic_abc Classic 8).
  - repeat split.
  - reflexivity.
Defined.

Lemma sniffer_big_rejects_early_witness :
  _is_this_type big_bad_size = Returns false /\
  forall fuel, get_image_description fuel big_bad_size = Returns None.
Proof.
  apply (@sniffer_big_rejects_early big_bad_size 4).
  - reflexivity.
  - reflexivity.
  - reflexivity.
  - left. discriminate.
Defined.

Lemma container_is_recognized_witness : _is_this_type big_plain = Returns true.
Proof.
  exact (@container_is_recognized big_plain Big [[image_width_entry]] big_plain_container).
Defined.

Lemma description_other_magic_raises_witness :
  get_image_description 3 other_magic_stream = Raises TypeError.
Proof.
  apply (@description_other_magic_raises other_magic_stream 7 3).
  - reflexivity.
  - reflexivity.
  - discriminate.
  - discriminate.
Defined.

Lemma description_offset_zero_raises_witness :
  get_image_description 2 classic_count0_offset0 = Raises TypeError.
Proof.
  apply (@description_offset_zero_raises classic_count0_offset0 Classic
           classic_count0_offset0_ifds 2
           {| tag := 270; typ := 2; count := 0; value_offset := 0 |}).
  - exact classic_count0_offset0_container.
  - reflexivity.
  - reflexivity.
  - simpl. lia.
Defined.

Lemma description_is_clipped_witness :
  exists description,
    get_image_description 2 classic_truncated = Returns (Some description) /\
    Z.of_nat (length description) = Z.min (10 - 1) (29 - 26) /\
    description = firstn (length description) (skipn 26 classic_truncated).
Proof.
  apply (@description_is_clipped classic_truncated Classic classic_truncated_ifds 2
           {| tag := 270; typ := 2; count := 10; value_offset := 26 |}).
  - exact classic_truncated_container.
  - reflexivity.
  - simpl. lia.
  - simpl. lia.
  - simpl. lia.
  - simpl. lia.
  - simpl. lia.
Defined.

Lemma cyclic_chain_never_returns_witness :
  get_image_description 1000 classic_cycle = OutOfFuel.
Proof.
  apply (@cyclic_chain_never_returns classic_cycle Classic 8 [] 1000).
  - repeat split.
  - reflexivity.
  - discriminate.
  - reflexivity.
  - exact I.
  - constructor.
  - reflexivity.
Defined.

Lemma read_immediate_selected_scene_witness :
  _read_immediate mixed_scenes 1 = Returns (scene_array (sample_scene "ZYX" 2 4 4)).
Proof.
  apply (proj1 (@read_immediate_selected_scene mixed_scenes 1 mixed_scenes_differ)).
  reflexivity.
Defined.

Lemma read_immediate_stacks_scenes_witness :
  _read_immediate two_scenes 0 =
  Returns {| nd_shape := [2; 3; 2; 2];
             nd_dtype := uint16;
             nd_data := concat (map (fun scene => nd_data (scene_array scene))
                                    (series two_scenes)) |}.
Proof.
  apply (@read_immediate_stacks_scenes two_scenes 0
           (sample_scene "ZYX" 3 2 2) [sample_scene "ZYX" 3 2 2]).
  - reflexivity.
  - discriminate.
  - exact two_scenes_same_shape.
  - repeat constructor.
  - repeat constructor.
Defined.

Lemma tiff_properties_unrecognized_label_witness :
  _get_tiff_properties sample_order "S"%char module_namespace scene_QY 0 =
  Raises NameError.
Proof.
  eapply (@tiff_properties_unrecognized_label sample_order "S"%char scene_QY 0
            _ _ "Q"%char).
  - vm_compute. reflexivity.
  - vm_compute. reflexivity.
  - left. reflexivity.
  - exact sample_order_not_Q.
Defined.

Lemma accessors_retry_after_failure_witness :
  exists r,
    run sample_order "S"%char module_namespace [Dims; Shape; Dims]
        (TiffReader_init scene_QY 0) =
    (r, [Raises NameError; Raises NameError; Raises NameError]) /\
    introspections r = 3 /\
    _dims r = None /\ _shape r = None /\ _dtype r = None.
Proof.
  apply (@accessors_retry_after_failure sample_order "S"%char module_namespace
           scene_QY 0 NameError [Dims; Shape; Dims]).
  reflexivity.
Defined.

Lemma guess_tiff_dims_keeps_positions_witness :
  exists result,
    _guess_tiff_dims sample_order namespace_QY scene_QY 0 = Returns result /\
    length result = 2 /\
    Forall2 (resolved_label sample_order (sample_guess_dim_order [2; 4]))
            (list_ascii_of_string "QY") result.
Proof.
  apply (@guess_tiff_dims_keeps_positions sample_order namespace_QY scene_QY 0
           sample_guess_dim_order
           {| scene_shape := [2; 4];
              scene_pages := {| axes := list_ascii_of_string "QY";
                                pages_shape := [2; 4];
                                items := [sample_page 2 4 0] |};
              scene_array := plane 2 4 0 |}
           (list_ascii_of_string "QY")); reflexivity.
Defined.

Lemma read_delayed_shape_witness :
  exists data,
    _read_delayed two_scenes 0 = Returns data /\
    da_shape data = Some [2; 3; 2; 2].
Proof.
  apply (@read_delayed_shape two_scenes 0 (sample_scene "ZYX" 3 2 2) 2
           (sample_page 2 2 0) [sample_page 2 2 1; sample_page 2 2 2] [3] 2 2 2 2).
  - left. split; [exact two_scenes_same_shape|]. split; [reflexivity|].
    eexists. reflexivity.
  - reflexivity.
  - repeat constructor.
  - reflexivity.
  - reflexivity.
Defined.

Lemma z_stack_page_index_witness :
  exists data node,
    _read_delayed two_scenes 0 = Returns data /\
    grid_get (grid_of data) [1; 0; 0; 0] = Some node /\
    node_scene node = 1 /\
    node_page node = (1 * 3 + 0) / (1 + 1) /\
    node_page node < 3 /\
    (1 = 0 -> node_page node = 0) /\
    (0 < 1 -> 0 = 0 -> 2 <= 3 -> 0 < node_page node).
Proof.
  apply (@z_stack_page_index two_scenes 0 (sample_scene "ZYX" 3 2 2)
           [sample_scene "ZYX" 3 2 2]
           (sample_page 2 2 0) [sample_page 2 2 1; sample_page 2 2 2] 3 2 2 1 0).
  - reflexivity.
  - exact two_scenes_same_shape.
  - reflexivity.
  - reflexivity.
  - simpl. lia.
  - lia.
Defined.

Lemma read_delayed_selected_scene_reads_scene_0_witness :
  Forall (fun cell => exists node, cell = Some node /\ node_scene node = 0)
         (grid_cells (grid_of mixed_scenes_lazy)).
Proof.
  apply (@read_delayed_selected_scene_reads_scene_0 mixed_scenes 1 mixed_scenes_lazy).
  - exact mixed_scenes_differ.
  - exact mixed_scenes_read.
Defined.

Lemma read_lazy_planes_agree_witness :
  exists data,
    _read_delayed two_planes 0 = Returns data /\
    da_shape data = Some [2; 2; 3] /\
    compute two_planes data =
      Returns {| nd_shape := [2; 2; 3]; nd_dtype := uint16;
                 nd_data := [1; 1; 1; 1; 1; 1; 2; 2; 2; 2; 2; 2]%Z |} /\
    _read_immediate two_planes 0 =
      Returns {| nd_shape := [2; 2; 3]; nd_dtype := uint16;
                 nd_data := [1; 1; 1; 1; 1; 1; 2; 2; 2; 2; 2; 2]%Z |}.
Proof.
  apply (@read_lazy_planes_agree two_planes 0
           (sample_plane_scene 2 3 1) (sample_plane_scene 2 3 2) [] 2 3).
  - reflexivity.
  - exact two_planes_are_planes.
  - repeat constructor.
Defined.
